(** * Wind shear perturbation solver (aeolis/shear.py)

    A shallow embedding of class [WindShear] and a verification of its
    documented behaviour.

    Conventions of the embedding.
    - Floating point numbers are idealised as real numbers ([R]); the
      not-a-number value produced by scattered interpolation outside the
      convex hull is [None] in an array of [option R].  Where rounding
      decides a whole number (the first node of a grid axis and the
      number of its nodes) the value is a parameter ([rounding]).
    - A division of Python floats raises [ZeroDivisionError] for a zero
      divisor; numpy's division does not raise.
    - A two-dimensional numpy array is a row-major buffer together with
      its shape ([ndarray]); a one-dimensional array is a list.
    - The dictionaries [igrid] and [cgrid] are finite maps from strings.
    - A method is a computation in a state-and-exception monad over the
      instance: an exception does not roll back assignments made before
      it was raised.
    - The file uses the names [np], [interpolate_grid] and
      [get_exact_grid] without binding them at module level. [np] is read
      as numpy, [get_exact_grid] as the static method of that name and
      [interpolate_grid] as the interpolation of the class; the numerical
      kernels of numpy and scipy (FFT, Bessel functions, complex square
      root, cubic scattered interpolation) are parameters. *)

From Stdlib Require Import Reals Lra Lia ZArith.
From stdpp Require Import base gmap strings list.

Set Default Proof Using "Type".

(** ** Exceptions and results *)

Inductive exn : Type :=
| NameError (name : string)
| KeyError (key : string)
| AttributeError (name : string)
| IndexError
| ValueError
| TypeError
| ZeroDivisionError.

Inductive result (A : Type) : Type :=
| Ok (a : A)
| Raise (e : exn).
Arguments Ok {A} a.
Arguments Raise {A} e.

Global Instance result_ret : MRet result := λ A a, Ok a.
Global Instance result_bind : MBind result := λ A B k r,
  match r with
  | Ok a => k a
  | Raise e => Raise e
  end.

(** ** Arrays *)

Record ndarray (A : Type) : Type := Array { shape : nat * nat; data : list A }.
Arguments Array {A} shape data.
Arguments shape {A} _.
Arguments data {A} _.

(** The buffer of a well-formed array has as many elements as its shape says. *)
Definition wf {A} (a : ndarray A) : Prop :=
  length (data a) = (shape a).1 * (shape a).2.

Definition size {A} (a : ndarray A) : nat := length (data a).

(** [a.reshape(shape)]: numpy refuses a shape of another size. *)
Definition reshape {A} (sh : nat * nat) (l : list A) : result (ndarray A) :=
  if decide (length l = sh.1 * sh.2) then Ok (Array sh l) else Raise ValueError.

Definition amap {A B} (f : A → B) (a : ndarray A) : ndarray B :=
  Array (shape a) (f <$> data a).

(** ** Python indexing

    An integer index counts from the end when negative and raises
    [IndexError] out of range.  A slice never raises: its bounds are
    clipped as [PySlice_AdjustIndices] does. *)

Definition norm_index (i : Z) (n : nat) : result nat :=
  let j := if (i <? 0)%Z then (i + Z.of_nat n)%Z else i in
  if ((0 <=? j) && (j <? Z.of_nat n))%Z then Ok (Z.to_nat j) else Raise IndexError.

Definition adjust (step len i : Z) : Z :=
  if (i <? 0)%Z then
    let i' := (i + len)%Z in
    if (i' <? 0)%Z then (if (step <? 0)%Z then -1 else 0)%Z else i'
  else if (len <=? i)%Z then (if (step <? 0)%Z then len - 1 else len)%Z
  else i.

(** Indices selected by [start:stop:step] in a sequence of length [len];
    [None] is an omitted bound.  Every slice in the source has step 1 or -1. *)
Definition slice_indices (start stop : option Z) (step : Z) (len : nat) : list nat :=
  let n := Z.of_nat len in
  let s := match start with
           | Some i => adjust step n i
           | None => if (step <? 0)%Z then (n - 1)%Z else 0%Z
           end in
  let e := match stop with
           | Some i => adjust step n i
           | None => if (step <? 0)%Z then (-1)%Z else n
           end in
  let count :=
    if (step <? 0)%Z
    then (if (e <? s)%Z then ((s - e - 1) / (- step) + 1)%Z else 0%Z)
    else (if (s <? e)%Z then ((e - s - 1) / step + 1)%Z else 0%Z) in
  (λ k, Z.to_nat (s + step * Z.of_nat k)) <$> seq 0 (Z.to_nat count).

(** [x[j, i]] for in-range [j] and [i]. *)
Definition at2 {A} (x : ndarray A) (j i : nat) : option A :=
  data x !! (j * (shape x).2 + i).

(** [x[j, start:stop:step]]: part of a row. *)
Definition row_slice {A} (x : ndarray A) (j : Z) (start stop : option Z) (step : Z)
  : result (list A) :=
  (j' ← norm_index j (shape x).1 ;
   Ok (omap (at2 x j') (slice_indices start stop step (shape x).2))).

(** [x[start:stop:step, i]]: part of a column. *)
Definition col_slice {A} (x : ndarray A) (start stop : option Z) (step : Z) (i : Z)
  : result (list A) :=
  (i' ← norm_index i (shape x).2 ;
   Ok (omap (λ j, at2 x j i') (slice_indices start stop step (shape x).1))).

(** ** [WindShear.get_borders]

<<
    return np.concatenate((x[0,:].T,
                           x[1:-1,-1],
                           x[-1,::-1].T,
                           x[-1:1:-1,0],
                           x[0,:1]), axis=0)
>>
    The transpose of a one-dimensional array is the array itself. *)
Definition get_borders {A} (x : ndarray A) : result (list A) :=
  (top ← row_slice x 0 None None 1 ;
   right ← col_slice x (Some 1%Z) (Some (-1)%Z) 1 (-1) ;
   bottom ← row_slice x (-1) None None (-1) ;
   left ← col_slice x (Some (-1)%Z) (Some 1%Z) (-1) 0 ;
   first ← row_slice x 0 None (Some 1%Z) 1 ;
   Ok (top ++ right ++ bottom ++ left ++ first)).

(** ** Real and complex helpers *)

Global Instance R_eq_dec : EqDecision R := Req_dec_T.

(** [np.floor] and [np.ceil], as integers. *)
Definition Rfloor (x : R) : Z := Int_part x.
Definition Rceil (x : R) : Z := (- Int_part (- x))%Z.

(** The whole numbers that float64 arithmetic decides when a grid axis
    is built: [np.floor(a / b)], [np.ceil(a / b)] and the number of
    values of [np.arange(start, stop, step)] for a nonzero step, which
    is [ceil((stop - start) / step)] evaluated in float64.  Each agrees
    with its exact value up to the rounding of the quotient, which can
    move it by one (the axis from 0 to 0.3 in steps of 0.1 has four
    nodes). *)
Record rounding : Type := Rounding {
  floor_div : R → R → Z;
  ceil_div : R → R → Z;
  arange_length : R → R → R → nat
}.

(** Who divides a bound by a spacing: Python, when both are Python
    floats, or numpy, when one of them is a numpy scalar. *)
Inductive scalar : Type := PyFloat | NpFloat.

(** A division of Python floats raises for a zero divisor. *)
Definition nonzero_divisor (d : R) : result unit :=
  if decide (d = 0%R) then Raise ZeroDivisionError else Ok ().

(** Complex numbers as pairs (real part, imaginary part). *)
Definition C : Type := R * R.

Definition RtoC (r : R) : C := (r, 0%R).
Definition Ci : C := (0%R, 1%R).
Definition Cre (z : C) : R := z.1.
Definition Cadd (a b : C) : C := ((a.1 + b.1)%R, (a.2 + b.2)%R).
Definition Copp (a : C) : C := ((- a.1)%R, (- a.2)%R).
Definition Csub (a b : C) : C := Cadd a (Copp b).
Definition Cmul (a b : C) : C :=
  ((a.1 * b.1 - a.2 * b.2)%R, (a.1 * b.2 + a.2 * b.1)%R).
Definition Cinv (a : C) : C :=
  ((a.1 / (a.1 * a.1 + a.2 * a.2))%R, (- a.2 / (a.1 * a.1 + a.2 * a.2))%R).
Definition Cdiv (a b : C) : C := Cmul a (Cinv b).

Declare Scope C_scope.
Delimit Scope C_scope with C.
Bind Scope C_scope with C.
Infix "+" := Cadd : C_scope.
Infix "-" := Csub : C_scope.
Infix "*" := Cmul : C_scope.
Infix "/" := Cdiv : C_scope.
Notation "- x" := (Copp x) : C_scope.

(** ** Pieces of numpy used by the class *)

(** [np.concatenate((a.reshape((-1,1)), b.reshape((-1,1))), axis=1)]:
    the two columns must have the same number of rows. *)
Definition hconcat {A B} (a : list A) (b : list B) : result (list (A * B)) :=
  if decide (length a = length b) then Ok (zip a b) else Raise ValueError.

(** [xy * R] for an N x 2 array [xy] and a 2 x 2 matrix [R] (a matrix
    product, since [R] is an [np.matrix]); [R] is given by its rows. *)
Definition matmul2 (xy : list (R * R)) (m : (R * R) * (R * R)) : list (R * R) :=
  (λ p, ((p.1 * m.1.1 + p.2 * m.2.1)%R, (p.1 * m.1.2 + p.2 * m.2.2)%R)) <$> xy.

(** [np.zeros(shape)] *)
Definition zeros (sh : nat * nat) : ndarray R :=
  Array sh (replicate (sh.1 * sh.2) 0%R).

(** [np.isnan(a)] *)
Definition isnan (a : ndarray (option R)) : ndarray bool :=
  amap (λ v, if v is None then true else false) a.

(** [np.mean(a)] *)
Definition mean (a : ndarray R) : R :=
  (foldr Rplus 0 (data a) / INR (size a))%R.

(** [a.max()] and [a.min()]; both raise on an empty array. *)
Definition amax (a : ndarray R) : result R :=
  match data a with
  | [] => Raise ValueError
  | v :: vs => Ok (foldr Rmax v vs)
  end.
Definition amin (a : ndarray R) : result R :=
  match data a with
  | [] => Raise ValueError
  | v :: vs => Ok (foldr Rmin v vs)
  end.

(** [np.arange(start, stop, step)] for floats: the values
    [start + k*step], as many as float64 arithmetic makes of
    [ceil((stop - start)/step)]; a zero step makes the length undefined
    and the call raises. *)
Definition arange (fl : rounding) (start stop step : R) : result (list R) :=
  if decide (step = 0%R) then Raise ValueError
  else Ok ((λ k, (start + INR k * step)%R) <$> seq 0 (arange_length fl start stop step)).

(** [np.meshgrid(a, b)]: two arrays of shape [(len(b), len(a))]. *)
Definition meshgrid {A} (a b : list A) : ndarray A * ndarray A :=
  let sh := (length b, length a) in
  (Array sh (concat (replicate (length b) a)),
   Array sh (concat (replicate (length a) <$> b))).

(** [np.fft.fftfreq(n, d)]: the integers [0 .. (n-1)//2] followed by
    [-(n//2) .. -1], each times [1/(n*d)]. *)
Definition fftfreq (n : nat) (d : R) : list R :=
  let val := (1 / (INR n * d))%R in
  let N := ((n - 1) / 2 + 1)%nat in
  let p1 := Z.of_nat <$> seq 0 N in
  let p2 := (λ k, (Z.of_nat k - Z.of_nat (n / 2))%Z) <$> seq 0 (n / 2) in
  (λ i, (IZR i * val)%R) <$> (p1 ++ p2).

(** [a[start:stop:step]] on a one-dimensional array. *)
Definition py_slice {A} (start stop : option Z) (step : Z) (a : list A) : list A :=
  omap (λ i, a !! i) (slice_indices start stop step (length a)).

(** Elementwise combination of three arrays of one shape. *)
Definition azip3 {A B D E} (f : A → B → D → E)
    (a : ndarray A) (b : ndarray B) (d : ndarray D) : ndarray E :=
  Array (shape a) (zip_with (λ p c, f p.1 p.2 c) (zip (data a) (data b)) (data d)).

(** ** [WindShear.rotate]

<<
    xr = x - origin[0]
    yr = y - origin[1]
    a = alpha / 180. * np.pi
    R = np.asmatrix([[np.cos(a), -np.sin(a)],
                     [np.sin(a),  np.cos(a)]])
    xy = np.concatenate((xr.reshape((-1,1)),
                         yr.reshape((-1,1))), axis=1) * R
    return (np.asarray(xy[:,0].reshape(x.shape) + origin[0]),
            np.asarray(xy[:,1].reshape(y.shape) + origin[1]))
>> *)
Definition rotate (x y : ndarray R) (alpha : R) (origin : R * R)
  : result (ndarray R * ndarray R) :=
  let xr := amap (λ v, (v - origin.1)%R) x in
  let yr := amap (λ v, (v - origin.2)%R) y in
  let a := (alpha / 180 * PI)%R in
  let R := ((cos a, (- sin a)%R), (sin a, cos a)) in
  cols ← hconcat (data xr) (data yr);
  let xy := matmul2 cols R in
  c0 ← reshape (shape x) (fst <$> xy);
  c1 ← reshape (shape y) (snd <$> xy);
  Ok (amap (λ v, (v + origin.1)%R) c0, amap (λ v, (v + origin.2)%R) c1).

(** ** [WindShear.get_exact_grid]

<<
    x = np.arange(np.floor(xmin / dx) * dx, np.ceil(xmax / dx) * dx, dx)
    y = np.arange(np.floor(ymin / dy) * dy, np.ceil(ymax / dy) * dy, dy)
    x, y = np.meshgrid(x, y)
>>
    One axis: for a zero spacing the quotient [lo / d] raises when
    Python divides; when numpy divides, the bounds are not numbers and
    [np.arange] cannot compute a length. *)
Definition grid_axis (fl : rounding) (kind : scalar) (lo hi d : R) : result (list R) :=
  if decide (d = 0%R) then
    match kind with
    | PyFloat => Raise ZeroDivisionError
    | NpFloat => Raise ValueError
    end
  else arange fl (IZR (floor_div fl lo d) * d) (IZR (ceil_div fl hi d) * d) d.

Definition get_exact_grid (fl : rounding) (kind : scalar) (xmin xmax ymin ymax dx dy : R)
  : result (ndarray R * ndarray R) :=
  x ← grid_axis fl kind xmin xmax dx;
  y ← grid_axis fl kind ymin ymax dy;
  Ok (meshgrid x y).

(** ** The instance and its methods *)

(** Values held by the dictionaries [igrid] and [cgrid]: a Python
    float (a spacing, as passed to the constructor), a coordinate or
    perturbation array, or an interpolated field whose undefined cells
    are [None]. *)
Inductive pyval : Type :=
| VFloat (r : R)
| VArr (a : ndarray R)
| VNan (a : ndarray (option R)).

Record WindShear : Type := Self {
  igrid : gmap string pyval;
  cgrid : gmap string pyval;
  buffer_width : R;
  buffer_relaxation : R;
  L : R;
  z0 : R;
  l : R;
  D : option R;
  x0 : option R;
  y0 : option R
}.

(** A method body: it reads and updates the instance and may raise. *)
Definition M (A : Type) : Type := WindShear → result A * WindShear.

Global Instance M_ret : MRet M := λ A a s, (Ok a, s).
Global Instance M_bind : MBind M := λ A B k m s,
  match m s with
  | (Ok a, s') => k a s'
  | (Raise e, s') => (Raise e, s')
  end.

Definition raise {A} (e : exn) : M A := λ s, (Raise e, s).
Definition lift {A} (r : result A) : M A := λ s, (r, s).
Definition attr {A} (f : WindShear → A) : M A := λ s, (Ok (f s), s).

(** [self.name] for an attribute that exists only once it was assigned. *)
Definition attr_opt {A} (name : string) (f : WindShear → option A) : M A := λ s,
  match f s with
  | Some a => (Ok a, s)
  | None => (Raise (AttributeError name), s)
  end.

(** [self.igrid[k]] and [self.cgrid[k]] *)
Definition igrid_get (k : string) : M pyval := λ s,
  match igrid s !! k with
  | Some v => (Ok v, s)
  | None => (Raise (KeyError k), s)
  end.
Definition cgrid_get (k : string) : M pyval := λ s,
  match cgrid s !! k with
  | Some v => (Ok v, s)
  | None => (Raise (KeyError k), s)
  end.

(** [self.igrid[k] = v] and [self.cgrid[k] = v] *)
Definition igrid_set (k : string) (v : pyval) : M unit := λ s,
  (Ok (), Self (<[k := v]> (igrid s)) (cgrid s) (buffer_width s) (buffer_relaxation s)
             (L s) (z0 s) (l s) (D s) (x0 s) (y0 s)).
Definition cgrid_set (k : string) (v : pyval) : M unit := λ s,
  (Ok (), Self (igrid s) (<[k := v]> (cgrid s)) (buffer_width s) (buffer_relaxation s)
             (L s) (z0 s) (l s) (D s) (x0 s) (y0 s)).

Definition set_D (v : R) : M unit := λ s,
  (Ok (), Self (igrid s) (cgrid s) (buffer_width s) (buffer_relaxation s)
             (L s) (z0 s) (l s) (Some v) (x0 s) (y0 s)).
Definition set_x0 (v : R) : M unit := λ s,
  (Ok (), Self (igrid s) (cgrid s) (buffer_width s) (buffer_relaxation s)
             (L s) (z0 s) (l s) (D s) (Some v) (y0 s)).
Definition set_y0 (v : R) : M unit := λ s,
  (Ok (), Self (igrid s) (cgrid s) (buffer_width s) (buffer_relaxation s)
             (L s) (z0 s) (l s) (D s) (x0 s) (Some v)).

(** What the code expects a dictionary entry to be. *)
Definition as_float (v : pyval) : M R :=
  match v with VFloat r => mret r | _ => raise TypeError end.
Definition as_arr (v : pyval) : M (ndarray R) :=
  match v with VArr a => mret a | _ => raise TypeError end.
Definition as_nan (v : pyval) : M (ndarray (option R)) :=
  match v with VNan a => mret a | _ => raise TypeError end.

(** *** [get_sigmoid]

<<
    return 1. / (1. + np.exp(-(self.buffer_width-x) / self.buffer_relaxation))
>> *)
Definition get_sigmoid (self : WindShear) (x : R) : R :=
  (1 / (1 + exp (- (buffer_width self - x) / buffer_relaxation self)))%R.

(** *** [get_shear]

<<
    return self.igrid['dtaux'], self.igrid['dtauy']
>> *)
Definition get_shear : M (pyval * pyval) :=
  dtaux ← igrid_get "dtaux";
  dtauy ← igrid_get "dtauy";
  mret (dtaux, dtauy).

Section Kernels.

(** Numerical kernels of numpy and scipy: [np.fft.fft2], [np.fft.ifft2],
    [scipy.special.jn], [np.sqrt] on complex numbers, and
    [scipy.interpolate.griddata(..., method='cubic')]. *)
Context (fft2 : ndarray (option R) → ndarray C)
        (ifft2 : ndarray C → ndarray C)
        (jn : nat → C → C)
        (csqrt : C → C)
        (griddata_cubic : list (R * R) → list R → list (R * R) → list (option R)).

(** *** [interpolate]

<<
  xy = np.concatenate((x.reshape((-1,1)), y.reshape((-1,1))), axis=1)
  xyi = np.concatenate((xi.reshape((-1,1)), yi.reshape((-1,1))), axis=1)
  z = scipy.interpolate.griddata(xy, z.reshape((-1,1)), xyi,
                                 method='cubic').reshape(xi.shape)
>>
    [griddata] refuses values that do not match the points in number. *)
Definition interpolate (x y z xi yi : ndarray R) : result (ndarray (option R)) :=
  xy ← hconcat (data x) (data y);
  xyi ← hconcat (data xi) (data yi);
  if decide (length xy = length (data z))
  then reshape (shape xi) (griddata_cubic xy (data z) xyi)
  else Raise ValueError.

(** Modelled from the spec: [interpolate_grid] is called by
    [populate_computational_grid] and defined nowhere in the file; the
    specification (4.2, step 2) makes it the scattered-data cubic
    interpolation of 4.4, which is [interpolate]. *)
Definition interpolate_grid := interpolate.

(** *** [set_computational_grid]

<<
  g = self.igrid
  x0, y0 = np.mean(g['x']), np.mean(g['y'])
  self.D = np.sqrt((g['x'].max() - g['x'].min())**2 +
                   (g['y'].max() - g['y'].min())**2) + 2 * self.buffer_width
  xc, yc = get_exact_grid(x0 - self.D/2., x0 + self.D/2.,
                          y0 - self.D/2., y0 + self.D/2.,
                          self.cgrid['dx'], self.cgrid['dy'])
  self.x0 = x0
  self.y0 = y0
  self.cgrid['xi'] = xc
  self.cgrid['yi'] = yc
>>
    The bounds passed to [get_exact_grid] are numpy scalars: [np.mean]
    and [np.sqrt] return them. *)
Definition set_computational_grid (fl : rounding) : M unit :=
  gx ← igrid_get "x" ≫= as_arr;
  gy ← igrid_get "y" ≫= as_arr;
  let cx := mean gx in
  let cy := mean gy in
  xmax ← lift (amax gx);
  xmin ← lift (amin gx);
  ymax ← lift (amax gy);
  ymin ← lift (amin gy);
  bw ← attr buffer_width;
  _ ← set_D (sqrt ((xmax - xmin) ^ 2 + (ymax - ymin) ^ 2) + 2 * bw)%R;
  d ← attr_opt "D" D;
  dx ← cgrid_get "dx" ≫= as_float;
  dy ← cgrid_get "dy" ≫= as_float;
  '(xc, yc) ← lift (get_exact_grid fl NpFloat (cx - d / 2) (cx + d / 2)
                                    (cy - d / 2) (cy + d / 2) dx dy)%R;
  _ ← set_x0 cx;
  _ ← set_y0 cy;
  _ ← cgrid_set "xi" (VArr xc);
  cgrid_set "yi" (VArr yc).

(** *** [__init__]

<<
  if buffer_relaxation is None:
      buffer_relaxation = buffer_width / 4.
  self.igrid = dict(x = x, y = y, z = z)
  self.cgrid = dict(dx = dx, dy = dy)
  self.buffer_width = buffer_width
  self.buffer_relaxation = buffer_relaxation
  self.L = L
  self.z0 = z0
  self.l = l
  self.set_computational_grid()
>>
    The result is the constructed instance, or the exception that
    aborted the construction. *)
Definition __init__ (fl : rounding) (x y z : ndarray R) (dx dy buffer_width : R)
    (buffer_relaxation : option R) (L z0 l : R) : result WindShear :=
  let buffer_relaxation :=
    match buffer_relaxation with
    | None => (buffer_width / 4)%R
    | Some r => r
    end in
  let self :=
    Self (<["z" := VArr z]> (<["y" := VArr y]> (<["x" := VArr x]> ∅)))
         (<["dy" := VFloat dy]> (<["dx" := VFloat dx]> ∅))
         buffer_width buffer_relaxation L z0 l None None None in
  match set_computational_grid fl self with
  | (Ok _, self') => Ok self'
  | (Raise e, _) => Raise e
  end.

(** *** [compute_shear]

    The vectorised expressions of the source act cell by cell; each
    kernel below is the source expression on one cell, with Python's
    left-to-right grouping of [*] and [/].

<<
  k = np.sqrt(kx**2 + ky**2)
  sigma = np.sqrt(1j * self.L / 4. * kx * self.z0 / self.l)
  dtaux_t = hs * kx**2 / k * 2 / u0**2 * \
            (-1 + (2 * np.log(self.l/self.z0) + k**2/kx**2) * sigma * \
             scipy.special.jn(1, 2 * sigma) / scipy.special.jn(0, 2 * sigma))
  dtauy_t = hs * kx * ky / k * 2 / u0**2 * \
            2 * np.sqrt(2) * sigma * scipy.special.jn(1, 2 * np.sqrt(2) * sigma)
>> *)
Definition k_cell (kx ky : R) : R := sqrt (kx ^ 2 + ky ^ 2).

Definition sigma_cell (self : WindShear) (kx : R) : C :=
  csqrt (Ci * RtoC (L self) / RtoC 4 * RtoC kx * RtoC (z0 self) / RtoC (l self))%C.

Definition dtaux_cell (self : WindShear) (u0 : R) (hs : C) (kx ky : R) : C :=
  let k := k_cell kx ky in
  let sigma := sigma_cell self kx in
  (hs * RtoC (kx ^ 2) / RtoC k * RtoC 2 / RtoC (u0 ^ 2) *
   (RtoC (-1) +
    RtoC (2 * ln (l self / z0 self) + k ^ 2 / kx ^ 2) * sigma *
    jn 1 (RtoC 2 * sigma) / jn 0 (RtoC 2 * sigma)))%C.

Definition dtauy_cell (self : WindShear) (u0 : R) (hs : C) (kx ky : R) : C :=
  let k := k_cell kx ky in
  let sigma := sigma_cell self kx in
  (hs * RtoC kx * RtoC ky / RtoC k * RtoC 2 / RtoC (u0 ^ 2) *
   RtoC 2 * RtoC (sqrt 2) * sigma *
   jn 1 (RtoC 2 * RtoC (sqrt 2) * sigma))%C.

(** The wavenumber axis of [n] cells of size [dx]:
    [np.fft.fftfreq(n+1, 2 * np.pi / (dx*n))[1:]]. *)
Definition wavenumbers (n : nat) (dx : R) : list R :=
  py_slice (Some 1%Z) None 1 (fftfreq (n + 1) (2 * PI / (dx * INR n))).

(**
<<
  g = self.cgrid
  if u0 == 0.:
      self.cgrid['dtaux'] = np.zeros(g['z'].shape)
      self.cgrid['dtauy'] = np.zeros(g['z'].shape)
      return
  ny, nx = g['z'].shape
  kx, ky = np.meshgrid(np.fft.fftfreq(nx+1, 2 * np.pi / (g['dx']*nx))[1:],
                       np.fft.fftfreq(ny+1, 2 * np.pi / (g['dy']*ny))[1:])
  hs = -np.fft.fft2(g['z']);
  ...
  self.cgrid['dtaux'] = np.real(np.fft.ifft2(dtaux_t))
  self.cgrid['dtauy'] = np.real(np.fft.ifft2(dtauy_t))
>>
    Three quotients are divisions of Python floats and raise for a zero
    divisor: [2 * np.pi / (g['dx']*nx)], [2 * np.pi / (g['dy']*ny)] and
    [self.l/self.z0]; the other divisions are numpy's. *)
Definition compute_shear (u0 : R) : M unit :=
  if decide (u0 = 0%R) then
    z ← cgrid_get "z" ≫= as_nan;
    _ ← cgrid_set "dtaux" (VArr (zeros (shape z)));
    z ← cgrid_get "z" ≫= as_nan;
    cgrid_set "dtauy" (VArr (zeros (shape z)))
  else
    z ← cgrid_get "z" ≫= as_nan;
    let '(ny, nx) := shape z in
    dx ← cgrid_get "dx" ≫= as_float;
    _ ← lift (nonzero_divisor (dx * INR nx));
    dy ← cgrid_get "dy" ≫= as_float;
    _ ← lift (nonzero_divisor (dy * INR ny));
    let '(kx, ky) := meshgrid (wavenumbers nx dx) (wavenumbers ny dy) in
    z ← cgrid_get "z" ≫= as_nan;
    let hs := amap Copp (fft2 z) in
    self ← attr (λ s, s);
    _ ← lift (nonzero_divisor (z0 self));
    let dtaux_t := azip3 (dtaux_cell self u0) hs kx ky in
    let dtauy_t := azip3 (dtauy_cell self u0) hs kx ky in
    _ ← cgrid_set "dtaux" (VArr (amap Cre (ifft2 dtaux_t)));
    cgrid_set "dtauy" (VArr (amap Cre (ifft2 dtauy_t))).

(** *** The spectral solver as the specification writes it (4.3)

    The definitions of this part follow the words of the specification
    and use none of the functions that model numpy (frequency axis,
    slices, mesh grid, elementwise operations on arrays).

    The standard discrete Fourier frequencies of an [N]-point axis with
    sample spacing [d] are [m / (N d)] for the first half of the axis
    ([2 m < N]) and [(m - N) / (N d)] for the rest. *)
Definition spec_frequency (N : nat) (d : R) (m : nat) : R :=
  ((if decide (2 * m < N)%nat then INR m else INR m - INR N) / (INR N * d))%R.

(** The wavenumber at position [i] of a grid axis of [count] cells of
    size [spacing]: the [(count+1)]-point frequency axis scaled by
    [2 pi / (spacing * count)], which is taken as the sample spacing of
    the axis, with index 0 dropped. *)
Definition spec_wavenumber (count : nat) (spacing : R) (i : nat) : R :=
  spec_frequency (count + 1) (2 * PI / (spacing * INR count)) (i + 1).

(** A two-dimensional array of shape [(ny, nx)] given cell by cell, the
    cell [(j, i)] of an array, and its real part. *)
Definition spec_table {A} (ny nx : nat) (f : nat → nat → A) : ndarray A :=
  Array (ny, nx) (concat ((λ j, f j <$> seq 0 nx) <$> seq 0 ny)).

Definition spec_cell (a : ndarray C) (j i : nat) : C :=
  default (0%R, 0%R) (data a !! (j * (shape a).2 + i)).

Definition spec_real_part (a : ndarray C) : ndarray R :=
  Array (shape a) (fst <$> data a).

(** [hs = -FFT2(z)], [k = sqrt(kx^2 + ky^2)],
    [sigma = sqrt(i (L/4) kx z0 / l)] and
<<
  dtaux_spectrum = hs kx^2/k 2/u0^2 (-1 + (2 ln(l/z0) + k^2/kx^2) sigma J1(2 sigma) / J0(2 sigma))
  dtauy_spectrum = hs kx ky/k 2/u0^2 2 sqrt(2) sigma J1(2 sqrt(2) sigma)
>>
    with the real factors evaluated in the reals. *)

Definition spec_sigma (self : WindShear) (kx : R) : C :=
  csqrt (Ci * RtoC (L self / 4 * kx * z0 self / l self))%C.

Definition spec_dtaux_spectrum (self : WindShear) (u0 : R) (hs : C) (kx ky : R) : C :=
  let k := sqrt (kx ^ 2 + ky ^ 2) in
  let sigma := spec_sigma self kx in
  (hs * RtoC (kx ^ 2 / k) * RtoC (2 / u0 ^ 2) *
   (RtoC (-1) +
    RtoC (2 * ln (l self / z0 self) + k ^ 2 / kx ^ 2) * sigma *
    (jn 1 (RtoC 2 * sigma) / jn 0 (RtoC 2 * sigma))))%C.

Definition spec_dtauy_spectrum (self : WindShear) (u0 : R) (hs : C) (kx ky : R) : C :=
  let k := sqrt (kx ^ 2 + ky ^ 2) in
  let sigma := spec_sigma self kx in
  (hs * RtoC (kx * ky / k) * RtoC (2 / u0 ^ 2) * RtoC (2 * sqrt 2) * sigma *
   jn 1 (RtoC (2 * sqrt 2) * sigma))%C.

(** The two perturbation fields the specification assigns for a
    nonzero speed on a grid of [ny] rows and [nx] columns: the real
    parts of the inverse transforms of the two spectra. *)
Definition spec_perturbation (self : WindShear) (u0 : R) (z : ndarray (option R))
    (ny nx : nat) (dx dy : R) : ndarray R * ndarray R :=
  let hs j i := (- spec_cell (fft2 z) j i)%C in
  let kx i := spec_wavenumber nx dx i in
  let ky j := spec_wavenumber ny dy j in
  (spec_real_part
     (ifft2 (spec_table ny nx (λ j i, spec_dtaux_spectrum self u0 (hs j i) (kx i) (ky j)))),
   spec_real_part
     (ifft2 (spec_table ny nx (λ j i, spec_dtauy_spectrum self u0 (hs j i) (kx i) (ky j))))).

(** *** [populate_computational_grid]

<<
  gc = self.cgrid
  gi = self.igrid
  xc, yc = self.rotate(gc['xi'], gc['yi'], alpha, origin=(self.x0, self.y0))
  self.cgrid['z'] = interpolate_grid(gi['x'], gi['y'], gi['z'], xc, yc)
  self.cgrid['x'] = xc
  self.cgrid['y'] = yc
  px = self.get_borders(gi['x'])
  py = self.get_borders(gi['y'])
  pz = self.get_borders(gi['z'])
  ix = np.isnan(gc['z'])
  argmin = lambda x: np.argmin(x), np.min(x)
  i, d = zip( *[argmin(np.sqrt((px - xn)**2 + (py - yn)**2))
               for xn, yn in zip(xc[ix], yc[ix])])
  i = np.asarray(i)
  d = np.asarray(d)
  self.cgrid['z'][ix] = pz[i] * self.get_sigmoid(d)
>>
    The right-hand side of the assignment to [argmin] is the pair of
    [lambda x: np.argmin(x)] and [np.min(x)]: a lambda ends at the
    comma.  Its second component reads a name [x] that is bound
    neither in the method nor at module level, so the statement
    raises [NameError] and the statements after it are never run. *)
Definition populate_computational_grid (alpha : R) : M unit :=
  xi ← cgrid_get "xi" ≫= as_arr;
  yi ← cgrid_get "yi" ≫= as_arr;
  ox ← attr_opt "x0" x0;
  oy ← attr_opt "y0" y0;
  '(xc, yc) ← lift (rotate xi yi alpha (ox, oy));
  gx ← igrid_get "x" ≫= as_arr;
  gy ← igrid_get "y" ≫= as_arr;
  gz ← igrid_get "z" ≫= as_arr;
  zc ← lift (interpolate_grid gx gy gz xc yc);
  _ ← cgrid_set "z" (VNan zc);
  _ ← cgrid_set "x" (VArr xc);
  _ ← cgrid_set "y" (VArr yc);
  sx ← igrid_get "x" ≫= as_arr;
  px ← lift (get_borders sx);
  sy ← igrid_get "y" ≫= as_arr;
  py ← lift (get_borders sy);
  sz ← igrid_get "z" ≫= as_arr;
  pz ← lift (get_borders sz);
  z ← cgrid_get "z" ≫= as_nan;
  let ix := isnan z in
  raise (NameError "x").

(** *** [__call__]

<<
  self.populate_computational_grid(udir)
  self.compute_shear(u0)
  gc = self.cgrid
  gi = self.igrid
  dtaux, dtauy = self.rotate(gc['dtaux'], gc['dtauy'], udir)
  self.cgrid['dtaux'] = dtaux
  self.cgrid['dtauy'] = dtauy
  self.igrid['dtaux'] = self.interpolate(gc['x'], gc['y'], dtaux, gi['x'], gi['y'])
  self.igrid['dtauy'] = self.interpolate(gc['x'], gc['y'], dtauy, gi['x'], gi['y'])
  return self
>> *)
Definition __call__ (u0 udir : R) : M unit :=
  _ ← populate_computational_grid udir;
  _ ← compute_shear u0;
  gdx ← cgrid_get "dtaux" ≫= as_arr;
  gdy ← cgrid_get "dtauy" ≫= as_arr;
  '(dtaux, dtauy) ← lift (rotate gdx gdy udir (0, 0)%R);
  _ ← cgrid_set "dtaux" (VArr dtaux);
  _ ← cgrid_set "dtauy" (VArr dtauy);
  cx ← cgrid_get "x" ≫= as_arr;
  cy ← cgrid_get "y" ≫= as_arr;
  ix ← igrid_get "x" ≫= as_arr;
  iy ← igrid_get "y" ≫= as_arr;
  rx ← lift (interpolate cx cy dtaux ix iy);
  _ ← igrid_set "dtaux" (VNan rx);
  cx ← cgrid_get "x" ≫= as_arr;
  cy ← cgrid_get "y" ≫= as_arr;
  ix ← igrid_get "x" ≫= as_arr;
  iy ← igrid_get "y" ≫= as_arr;
  ry ← lift (interpolate cx cy dtauy ix iy);
  igrid_set "dtauy" (VNan ry).

End Kernels.

(** ** Notions used in the statements *)

(** The integer multiplier at position [k] of an [n]-point frequency axis. *)
Definition freq_index (n k : nat) : Z :=
  if decide (k < (n - 1) / 2 + 1) then Z.of_nat k else (Z.of_nat k - Z.of_nat n)%Z.

(** A method body keeps a relation between the instance before and after
    it, whether it returns or raises. *)
Definition preserves {A} (Rel : WindShear → WindShear → Prop) (m : M A) : Prop :=
  ∀ s r s', m s = (r, s') → Rel s s'.

(** What an invocation may change: the keys [dtaux] and [dtauy] of
    [igrid], the keys [x], [y], [z], [dtaux] and [dtauy] of [cgrid], and
    nothing else. *)
Definition working_key (k : string) : Prop :=
  k = "x" ∨ k = "y" ∨ k = "z" ∨ k = "dtaux" ∨ k = "dtauy".
Definition result_key (k : string) : Prop := k = "dtaux" ∨ k = "dtauy".

Record call_frame (s s' : WindShear) : Prop := CallFrame {
  frame_igrid : ∀ k, ¬ result_key k → igrid s' !! k = igrid s !! k;
  frame_cgrid : ∀ k, ¬ working_key k → cgrid s' !! k = cgrid s !! k;
  frame_buffer_width : buffer_width s' = buffer_width s;
  frame_buffer_relaxation : buffer_relaxation s' = buffer_relaxation s;
  frame_L : L s' = L s;
  frame_z0 : z0 s' = z0 s;
  frame_l : l s' = l s;
  frame_D : D s' = D s;
  frame_x0 : x0 s' = x0 s;
  frame_y0 : y0 s' = y0 s
}.

(** *** Sample inputs *)

(** The instance attributes left by the default arguments
    [buffer_width=100.] and [buffer_relaxation=None]. *)
Definition default_buffer : WindShear :=
  Self ∅ ∅ 100 (100 / 4) 100 (1 / 1000) 10 None None None.

(** Rounding that changes no whole number. *)
Definition exact_rounding : rounding :=
  Rounding (λ a b, Rfloor (a / b)) (λ a b, Rceil (a / b))
           (λ start stop step, Z.to_nat (Rceil ((stop - start) / step))).

(** A unit square, to be passed to the constructor with its default
    arguments. *)
Definition unit_square_x : ndarray R := Array (2, 2) [0; 1; 0; 1]%R.
Definition unit_square_y : ndarray R := Array (2, 2) [0; 0; 1; 1]%R.
Definition unit_square_z : ndarray R := Array (2, 2) [1; 2; 3; 4]%R.

(** An instance with a one-cell computational grid whose cell lies
    outside the input grid, and stand-ins for the numerical kernels. *)
Definition one_cell : WindShear :=
  Self (<["z" := VArr (Array (1, 1) [1%R])]>
          (<["y" := VArr (Array (1, 1) [0%R])]> (<["x" := VArr (Array (1, 1) [0%R])]> ∅)))
       (<["z" := VNan (Array (1, 1) [None])]>
          (<["yi" := VArr (Array (1, 1) [5%R])]>
             (<["xi" := VArr (Array (1, 1) [5%R])]>
                (<["dy" := VFloat 1]> (<["dx" := VFloat 1]> ∅)))))
       100 (100 / 4) 100 (1 / 1000) 10 (Some 200%R) (Some 0%R) (Some 0%R).

Definition fft2_stub (z : ndarray (option R)) : ndarray C := amap (λ _, RtoC 0) z.
Definition ifft2_stub (a : ndarray C) : ndarray C := a.
Definition jn_stub (n : nat) (z : C) : C := z.
Definition csqrt_stub (z : C) : C := z.
(** Every query point lies outside the convex hull of the data. *)
Definition griddata_outside (xy : list (R * R)) (z : list R) (xyi : list (R * R))
  : list (option R) := (λ _, None) <$> xyi.

(** ** Notions used in the further properties *)

(** The instance with [dtaux] and [dtauy] of [cgrid] replaced. *)
Definition with_shear (s : WindShear) (dtaux dtauy : ndarray R) : WindShear :=
  Self (igrid s) (<["dtauy" := VArr dtauy]> (<["dtaux" := VArr dtaux]> (cgrid s)))
       (buffer_width s) (buffer_relaxation s) (L s) (z0 s) (l s) (D s) (x0 s) (y0 s).

(** The two fields [compute_shear] computes from the elevation [z] and
    the spacings [dx], [dy] (lines 182-202 of the source). *)
Definition shear_fields (fft2 : ndarray (option R) → ndarray C)
    (ifft2 : ndarray C → ndarray C) (jn : nat → C → C) (csqrt : C → C)
    (self : WindShear) (u0 : R) (z : ndarray (option R)) (dx dy : R)
  : ndarray R * ndarray R :=
  if decide (u0 = 0%R) then (zeros (shape z), zeros (shape z))
  else
    let kxy := meshgrid (wavenumbers (shape z).2 dx) (wavenumbers (shape z).1 dy) in
    let hs := amap Copp (fft2 z) in
    (amap Cre (ifft2 (azip3 (dtaux_cell jn csqrt self u0) hs kxy.1 kxy.2)),
     amap Cre (ifft2 (azip3 (dtauy_cell jn csqrt self u0) hs kxy.1 kxy.2))).

(** What a nonzero speed needs besides the elevation: the two spacings
    and three nonzero divisors. *)
Definition spectral_ready (s : WindShear) (z : ndarray (option R)) (dx dy : R) : Prop :=
  cgrid s !! "dx" = Some (VFloat dx) ∧ cgrid s !! "dy" = Some (VFloat dy)
  ∧ (dx * INR (shape z).2)%R ≠ 0%R ∧ (dy * INR (shape z).1)%R ≠ 0%R
  ∧ z0 s ≠ 0%R.

(** What [populate_computational_grid] may change: the keys [x], [y]
    and [z] of [cgrid]. *)
Record populate_frame (s s' : WindShear) : Prop := PopulateFrame {
  pframe_igrid : igrid s' = igrid s;
  pframe_cgrid : ∀ k, k ≠ "x" → k ≠ "y" → k ≠ "z" → cgrid s' !! k = cgrid s !! k;
  pframe_x0 : x0 s' = x0 s;
  pframe_y0 : y0 s' = y0 s
}.

(** The instance after a sequence of invocations [(u0, udir)], each of
    which may have raised. *)
Definition after_calls (fft2 : ndarray (option R) → ndarray C)
    (ifft2 : ndarray C → ndarray C) (jn : nat → C → C) (csqrt : C → C)
    (griddata_cubic : list (R * R) → list R → list (R * R) → list (option R))
    (calls : list (R * R)) (s : WindShear) : WindShear :=
  foldl (λ s c, (__call__ fft2 ifft2 jn csqrt griddata_cubic c.1 c.2 s).2) s calls.

(** Two points on the x axis, and a 3 x 3 array of labels. *)
Definition two_points_x : ndarray R := Array (1, 2) [1; 2]%R.
Definition two_points_y : ndarray R := Array (1, 2) [0; 0]%R.
Definition three_by_three : ndarray nat := Array (3, 3) [1; 2; 3; 4; 5; 6; 7; 8; 9].

(** * Verification *)

(** ** Slices *)

Lemma fmap_seq_up (a c : nat) (s : Z) :
  s = Z.of_nat a →
  (λ k, Z.to_nat (s + 1 * Z.of_nat k)%Z) <$> seq 0 c = seq a c.
Proof.
  intros ->. apply list_eq; intros i.
  rewrite list_lookup_fmap.
  destruct (decide (i < c)) as [Hi|Hi].
  - rewrite !lookup_seq_lt by done. simpl. f_equal. lia.
  - rewrite !lookup_seq_ge by lia. done.
Qed.

Lemma fmap_seq_down (a c : nat) (s : Z) :
  s = (Z.of_nat (a + c) - 1)%Z →
  (λ k, Z.to_nat (s + -1 * Z.of_nat k)%Z) <$> seq 0 c = reverse (seq a c).
Proof.
  intros ->. apply list_eq; intros i.
  rewrite list_lookup_fmap.
  destruct (decide (i < c)) as [Hi|Hi].
  - rewrite reverse_lookup by (rewrite length_seq; lia).
    rewrite length_seq, !lookup_seq_lt by lia. simpl. f_equal. lia.
  - rewrite lookup_seq_ge by lia. rewrite lookup_ge_None_2; [done|].
    rewrite length_reverse, length_seq. lia.
Qed.

Ltac slice_cases :=
  unfold slice_indices, adjust; cbn [Z.ltb Z.leb Z.compare Z.opp]; 
  repeat match goal with
         | |- context [(?a <? ?b)%Z] => destruct (Z.ltb_spec a b); try lia
         | |- context [(?a <=? ?b)%Z] => destruct (Z.leb_spec a b); try lia
         | H : context [(?a <? ?b)%Z] |- _ => destruct (Z.ltb_spec a b); try lia
         | H : context [(?a <=? ?b)%Z] |- _ => destruct (Z.leb_spec a b); try lia
         end;
  rewrite ?Z.div_1_r.

Lemma slice_all n : slice_indices None None 1 n = seq 0 n.
Proof.
  slice_cases.
  - rewrite (fmap_seq_up 0) by lia. f_equal. lia.
  - assert (n = 0) as -> by lia. done.
Qed.

Lemma slice_rev n : slice_indices None None (-1) n = reverse (seq 0 n).
Proof.
  slice_cases.
  - rewrite (fmap_seq_down 0 (Z.to_nat (Z.of_nat n - 1 - -1 - 1 + 1))) by lia. do 2 f_equal. lia.
  - assert (n = 0) as -> by lia. done.
Qed.

Lemma slice_inner n : slice_indices (Some 1%Z) (Some (-1)%Z) 1 n = seq 1 (n - 2).
Proof.
  slice_cases; try (replace (n - 2) with 0 by lia; done).
  rewrite (fmap_seq_up 1) by lia. f_equal. lia.
Qed.

Lemma slice_left n : slice_indices (Some (-1)%Z) (Some 1%Z) (-1) n = reverse (seq 2 (n - 2)).
Proof.
  slice_cases; try (replace (n - 2) with 0 by lia; done).
  all: rewrite (fmap_seq_down 2) by lia; do 2 f_equal; lia.
Qed.

Lemma slice_first n : 0 < n → slice_indices None (Some 1%Z) 1 n = [0].
Proof.
  intros Hn. slice_cases.
  - replace (Z.to_nat _) with 1 by lia. done.
  - replace (Z.to_nat _) with 1 by lia. done.
Qed.

Lemma slice_tail n : slice_indices (Some 1%Z) None 1 n = seq 1 (n - 1).
Proof.
  slice_cases; try (replace (n - 1) with 0 by lia; done).
  rewrite (fmap_seq_up 1) by lia. f_equal. lia.
Qed.

(** ** [get_borders] *)

Lemma norm_index_first n : 0 < n → norm_index 0 n = Ok 0.
Proof.
  intros Hn. unfold norm_index. cbn [Z.ltb Z.compare].
  destruct (Z.leb_spec 0 0), (Z.ltb_spec 0 (Z.of_nat n)); try lia. done.
Qed.

Lemma norm_index_last n : 0 < n → norm_index (-1) n = Ok (n - 1).
Proof.
  intros Hn. unfold norm_index. cbn [Z.ltb Z.compare].
  destruct (Z.leb_spec 0 (-1 + Z.of_nat n)), (Z.ltb_spec (-1 + Z.of_nat n) (Z.of_nat n));
    try lia.
  cbn. f_equal. lia.
Qed.

Lemma get_borders_pieces {A} (x : ndarray A) (ny nx : nat) :
  shape x = (ny, nx) → 0 < ny → 0 < nx →
  get_borders x =
    Ok (omap (at2 x 0) (seq 0 nx)
        ++ omap (λ j, at2 x j (nx - 1)) (seq 1 (ny - 2))
        ++ omap (at2 x (ny - 1)) (reverse (seq 0 nx))
        ++ omap (λ j, at2 x j 0) (reverse (seq 2 (ny - 2)))
        ++ omap (at2 x 0) [0]).
Proof.
  intros Hsh Hy Hx. unfold get_borders, row_slice, col_slice.
  rewrite Hsh. cbn [fst snd].
  rewrite !norm_index_first, !norm_index_last by done. cbn [mbind result_bind].
  rewrite slice_all, slice_inner, slice_rev, slice_left, slice_first by done.
  done.
Qed.

Section omap_total.
Context {A B : Type} (f : A → option B).

Lemma omap_total_length (l : list A) :
  Forall (λ a, is_Some (f a)) l → length (omap f l) = length l.
Proof.
  induction 1 as [|a l [b Hb] _ IH]; [done|].
  cbn. rewrite Hb. cbn. by rewrite IH.
Qed.

Lemma omap_total_lookup (l : list A) (k : nat) :
  Forall (λ a, is_Some (f a)) l → omap f l !! k = l !! k ≫= f.
Proof.
  intros H. revert k. induction H as [|a l [b Hb] _ IH]; intros k; [done|].
  cbn. rewrite Hb. destruct k; cbn; [done|]. apply IH.
Qed.
End omap_total.

Lemma at2_is_Some {A} (x : ndarray A) (ny nx j i : nat) :
  wf x → shape x = (ny, nx) → j < ny → i < nx → is_Some (at2 x j i).
Proof.
  unfold wf, at2. intros Hwf Hsh Hj Hi. rewrite Hsh in *. cbn [fst snd] in *.
  apply lookup_lt_is_Some. rewrite Hwf.
  assert (S j * nx ≤ ny * nx) as Hle by (apply Nat.mul_le_mono_r; lia).
  rewrite Nat.mul_succ_l in Hle. lia.
Qed.

(** Claim C5, as the code has it.  For an array of [ny >= 2] rows and
    [nx >= 2] columns, [get_borders] returns a sequence of
    [2 (ny + nx) - 3] values: the top row from left to right, the right
    column from top to bottom without its two corners, the bottom row
    from right to left, [ny - 2] values of the left column, and the
    first value once more. *)
Theorem get_borders_closed_ring {A} (x : ndarray A) (ny nx : nat) :
  wf x → shape x = (ny, nx) → 2 ≤ ny → 2 ≤ nx →
  ∃ b, get_borders x = Ok b
    ∧ length b = 2 * (ny + nx) - 3
    ∧ (∀ i, i < nx → b !! i = at2 x 0 i)
    ∧ (∀ j, 1 ≤ j ≤ ny - 2 → b !! (nx + j - 1) = at2 x j (nx - 1))
    ∧ (∀ i, i < nx → b !! (nx + ny - 2 + i) = at2 x (ny - 1) (nx - 1 - i))
    ∧ (∀ k, 2 * nx + ny - 2 ≤ k < 2 * (ny + nx) - 4 →
         ∃ j, j < ny ∧ b !! k = at2 x j 0)
    ∧ b !! (2 * (ny + nx) - 4) = at2 x 0 0.
Proof.
  intros Hwf Hsh Hy Hx.
  assert (∀ j i, j < ny → i < nx → is_Some (at2 x j i)) as Hcell
    by (intros; by eapply at2_is_Some).
  rewrite (get_borders_pieces x ny nx) by (done || lia).
  remember (omap (at2 x 0) (seq 0 nx)) as top eqn:Etop.
  remember (omap (λ j, at2 x j (nx - 1)) (seq 1 (ny - 2))) as right eqn:Eright.
  remember (omap (at2 x (ny - 1)) (reverse (seq 0 nx))) as bottom eqn:Ebottom.
  remember (omap (λ j, at2 x j 0) (reverse (seq 2 (ny - 2)))) as left eqn:Eleft.
  remember (omap (at2 x 0) [0]) as first eqn:Efirst.
  assert (Forall (λ i, is_Some (at2 x 0 i)) (seq 0 nx)) as Htop.
  { apply Forall_seq. intros; apply Hcell; lia. }
  assert (Forall (λ j, is_Some (at2 x j (nx - 1))) (seq 1 (ny - 2))) as Hright.
  { apply Forall_seq. intros; apply Hcell; lia. }
  assert (Forall (λ i, is_Some (at2 x (ny - 1) i)) (reverse (seq 0 nx))) as Hbot.
  { apply Forall_reverse, Forall_seq. intros; apply Hcell; lia. }
  assert (Forall (λ j, is_Some (at2 x j 0)) (reverse (seq 2 (ny - 2)))) as Hleft.
  { apply Forall_reverse, Forall_seq. intros; apply Hcell; lia. }
  assert (Forall (λ i, is_Some (at2 x 0 i)) [0]) as Hfirst.
  { repeat constructor. apply Hcell; lia. }
  assert (length top = nx) as Ltop
    by (subst top; rewrite omap_total_length, length_seq; done).
  assert (length right = ny - 2) as Lright
    by (subst right; rewrite omap_total_length, length_seq; done).
  assert (length bottom = nx) as Lbot
    by (subst bottom; rewrite omap_total_length, length_reverse, length_seq; done).
  assert (length left = ny - 2) as Lleft
    by (subst left; rewrite omap_total_length, length_reverse, length_seq; done).
  assert (length first = 1) as Lfirst
    by (subst first; rewrite omap_total_length; done).
  eexists. split; [done|].
  split; [rewrite !length_app; lia|].
  split; [|split; [|split; [|split]]].
  - intros i Hi. rewrite lookup_app_l by lia.
    subst top. rewrite omap_total_lookup, lookup_seq_lt by done. done.
  - intros j Hj. rewrite lookup_app_r, lookup_app_l by lia.
    subst right. rewrite omap_total_lookup by done.
    rewrite Ltop, lookup_seq_lt by lia.
    replace (1 + (nx + j - 1 - nx)) with j by lia. done.
  - intros i Hi. rewrite lookup_app_r, lookup_app_r, lookup_app_l by lia.
    subst bottom. rewrite omap_total_lookup by done.
    rewrite reverse_lookup by (rewrite length_seq; lia).
    rewrite Ltop, Lright, length_seq, lookup_seq_lt by lia.
    replace (0 + _) with (nx - 1 - i) by lia. done.
  - intros k Hk.
    rewrite lookup_app_r, lookup_app_r, lookup_app_r, lookup_app_l by lia.
    subst left. rewrite omap_total_lookup by done.
    rewrite reverse_lookup by (rewrite length_seq; lia).
    rewrite length_seq, lookup_seq_lt by lia.
    eexists. split; [|done]. lia.
  - rewrite lookup_app_r, lookup_app_r, lookup_app_r, lookup_app_r by lia.
    subst first. rewrite omap_total_lookup by done.
    replace (_ - _ - _ - _ - _) with 0 by lia. done.
Qed.

Lemma get_borders_closed_ring_witness :
  ∃ b, get_borders (Array (3, 3) [1; 2; 3; 4; 5; 6; 7; 8; 9]) = Ok b
    ∧ length b = 2 * (3 + 3) - 3.
Proof.
  destruct (get_borders_closed_ring (Array (3, 3) [1; 2; 3; 4; 5; 6; 7; 8; 9]) 3 3)
    as (b & Hb & Hlen & _); [reflexivity | reflexivity | lia | lia |].
  exists b. split; assumption.
Defined.

(** The border of a 2 x 2 array has five values, not four. *)
Lemma get_borders_length_counterexample :
  ¬ (∀ (x : ndarray nat) (ny nx : nat),
       wf x → shape x = (ny, nx) → 2 ≤ ny → 2 ≤ nx →
       ∃ b, get_borders x = Ok b ∧ length b = 2 * (ny + nx) - 4).
Proof.
  intros H.
  destruct (H (Array (2, 2) [1; 2; 3; 4]) 2 2) as (b & Hb & Hlen);
    [reflexivity | reflexivity | lia | lia |].
  vm_compute in Hb. injection Hb as <-. discriminate Hlen.
Qed.

(** On a 3 x 3 array the left-column slice [x[-1:1:-1,0]] starts at the
    bottom-left corner, which the bottom row already gave, and stops
    before row 1: 7 is repeated and 4 is never visited. *)
Lemma get_borders_three_by_three :
  get_borders (Array (3, 3) [1; 2; 3; 4; 5; 6; 7; 8; 9])
  = Ok [1; 2; 3; 6; 9; 8; 7; 7; 1].
Proof. reflexivity. Qed.

(** ** [rotate] *)

Lemma fmap_zip_fmap {A B A' B' E} (f : A → A') (g : B → B') (h : A' * B' → E)
    (l : list A) (k : list B) :
  h <$> zip (f <$> l) (g <$> k) = (λ p, h (f p.1, g p.2)) <$> zip l k.
Proof.
  revert k. induction l as [|a l IH]; intros [|b k]; cbn; [done..|].
  f_equal. apply IH.
Qed.

Lemma rotate_ok (x y : ndarray R) (alpha : R) (origin : R * R) :
  length (data x) = length (data y) →
  wf x → wf y →
  rotate x y alpha origin =
    Ok (Array (shape x)
          ((λ p, (p.1 - origin.1) * cos (alpha / 180 * PI)
                 + (p.2 - origin.2) * sin (alpha / 180 * PI) + origin.1)%R
             <$> zip (data x) (data y)),
        Array (shape y)
          ((λ p, (p.1 - origin.1) * - sin (alpha / 180 * PI)
                 + (p.2 - origin.2) * cos (alpha / 180 * PI) + origin.2)%R
             <$> zip (data x) (data y))).
Proof.
  intros Hlen Hx Hy. unfold rotate, hconcat, amap, matmul2. cbn [data shape].
  rewrite decide_True by (rewrite !length_fmap; done).
  cbn [mbind result_bind]. unfold reshape.
  rewrite decide_True
    by (rewrite !length_fmap, length_zip, !length_fmap; unfold wf in *; lia).
  cbn [mbind result_bind].
  rewrite decide_True
    by (rewrite !length_fmap, length_zip, !length_fmap; unfold wf in *; lia).
  cbn [mbind result_bind amap data shape].
  do 2 f_equal; f_equal;
    rewrite <- !list_fmap_compose, fmap_zip_fmap;
    apply list_fmap_ext; intros i [p q] _; reflexivity.
Qed.

Lemma lookup_zip_Some {A B} (l : list A) (k : list B) i a b :
  l !! i = Some a → k !! i = Some b → zip l k !! i = Some (a, b).
Proof.
  revert k i. induction l as [|a' l IH]; intros [|b' k] [|i]; cbn; try done.
  - congruence.
  - apply IH.
Qed.

(** Claim C4, as the code has it.  [rotate] returns arrays of the shapes
    of its arguments; each point is turned about [origin] by [alpha]
    degrees with the matrix applied to row vectors, which turns
    clockwise for a positive angle: the point [(ox + 1, oy)] turned by
    +90 degrees about [(ox, oy)] is [(ox, oy - 1)]. *)
Theorem rotate_clockwise :
  (∀ (x y : ndarray R) (alpha : R) (origin : R * R),
     wf x → wf y → shape x = shape y →
     ∃ xr yr, rotate x y alpha origin = Ok (xr, yr)
       ∧ shape xr = shape x ∧ shape yr = shape y ∧ wf xr ∧ wf yr
       ∧ ∀ k px py, data x !! k = Some px → data y !! k = Some py →
           data xr !! k =
             Some (origin.1 + (px - origin.1) * cos (alpha / 180 * PI)
                            + (py - origin.2) * sin (alpha / 180 * PI))%R
           ∧ data yr !! k =
             Some (origin.2 - (px - origin.1) * sin (alpha / 180 * PI)
                            + (py - origin.2) * cos (alpha / 180 * PI))%R)
  ∧ (∀ ox oy : R,
       rotate (Array (1, 1) [(ox + 1)%R]) (Array (1, 1) [oy]) 90 (ox, oy)
       = Ok (Array (1, 1) [ox], Array (1, 1) [(oy - 1)%R])).
Proof.
  split.
  - intros x y alpha origin Hx Hy Hsh.
    assert (length (data x) = length (data y)) as Hlen
      by (unfold wf in *; rewrite Hx, Hy, Hsh; done).
    rewrite rotate_ok by done.
    eexists _, _. split; [done|]. cbn [shape data].
    split; [done|]. split; [done|].
    split; [unfold wf in *; cbn [shape data]; rewrite length_fmap, length_zip; lia|].
    split; [unfold wf in *; cbn [shape data]; rewrite length_fmap, length_zip; lia|].
    intros k px py Hpx Hpy.
    rewrite !list_lookup_fmap, (lookup_zip_Some _ _ _ _ _ Hpx Hpy). cbn.
    split; f_equal; lra.
  - intros ox oy. rewrite rotate_ok by done. cbn.
    replace (90 / 180 * PI)%R with (PI / 2)%R by lra.
    rewrite cos_PI2, sin_PI2. do 4 f_equal; lra.
Qed.

Lemma rotate_clockwise_witness :
  ∃ xr yr, rotate (Array (1, 2) [1; 2]%R) (Array (1, 2) [0; 0]%R) 0 (0, 0)%R = Ok (xr, yr)
    ∧ shape xr = (1, 2) ∧ shape yr = (1, 2).
Proof.
  destruct rotate_clockwise as [H _].
  destruct (H (Array (1, 2) [1; 2]%R) (Array (1, 2) [0; 0]%R) 0%R (0, 0)%R)
    as (xr & yr & Hr & Hsx & Hsy & _); [reflexivity | reflexivity | reflexivity |].
  exists xr, yr. split; [exact Hr|]. split; assumption.
Defined.

(** A quarter turn of [(1, 0)] about the origin does not give [(0, 1)]. *)
Lemma rotate_quarter_turn_counterexample :
  rotate (Array (1, 1) [(0 + 1)%R]) (Array (1, 1) [0%R]) 90 (0, 0)%R
  ≠ Ok (Array (1, 1) [0%R], Array (1, 1) [(0 + 1)%R]).
Proof.
  rewrite rotate_ok by done. cbn.
  replace (90 / 180 * PI)%R with (PI / 2)%R by lra.
  rewrite cos_PI2, sin_PI2.
  intros Heq. injection Heq as _ Heq. lra.
Qed.

(** ** [get_sigmoid] *)

Section sigmoid.
Local Open Scope R_scope.

Lemma sigmoid_arg (bw br d : R) : 0 < br → - (bw - d) / br = (d - bw) / br.
Proof. intros Hbr. field. lra. Qed.

Lemma sigmoid_pos (self : WindShear) (d : R) : 0 < get_sigmoid self d.
Proof.
  unfold get_sigmoid. pose proof (exp_pos (- (buffer_width self - d) / buffer_relaxation self)).
  apply Rdiv_lt_0_compat; lra.
Qed.

Lemma sigmoid_decreasing (self : WindShear) (d1 d2 : R) :
  0 < buffer_relaxation self → d1 < d2 → get_sigmoid self d2 < get_sigmoid self d1.
Proof.
  intros Hbr Hd. unfold get_sigmoid.
  set (e1 := exp (- (buffer_width self - d1) / buffer_relaxation self)).
  set (e2 := exp (- (buffer_width self - d2) / buffer_relaxation self)).
  assert (0 < e1) by apply exp_pos.
  assert (e1 < e2).
  { apply exp_increasing. rewrite !sigmoid_arg by done.
    apply Rmult_lt_compat_r; [apply Rinv_0_lt_compat; lra | lra]. }
  unfold Rdiv. rewrite !Rmult_1_l.
  apply Rinv_lt_contravar; [nra | lra].
Qed.

Lemma sigmoid_centre (self : WindShear) :
  get_sigmoid self (buffer_width self) = 1 / 2.
Proof.
  unfold get_sigmoid.
  replace (- (buffer_width self - buffer_width self) / buffer_relaxation self) with 0
    by (unfold Rdiv; ring).
  rewrite exp_0. lra.
Qed.

Lemma sigmoid_border_lt_1 (self : WindShear) : get_sigmoid self 0 < 1.
Proof.
  unfold get_sigmoid.
  pose proof (exp_pos (- (buffer_width self - 0) / buffer_relaxation self)) as He.
  apply (Rmult_lt_reg_r (1 + exp (- (buffer_width self - 0) / buffer_relaxation self)));
    [lra|].
  unfold Rdiv. rewrite Rmult_assoc, Rinv_l by lra. lra.
Qed.

Lemma sigmoid_vanishes (self : WindShear) (eps : R) :
  0 < buffer_relaxation self → 0 < eps →
  ∀ d, buffer_width self + buffer_relaxation self / eps < d → get_sigmoid self d < eps.
Proof.
  intros Hbr Heps d Hd. unfold get_sigmoid.
  rewrite sigmoid_arg by done.
  set (t := (d - buffer_width self) / buffer_relaxation self).
  assert (/ eps < t) as Ht.
  { unfold t. apply (Rmult_lt_reg_r (buffer_relaxation self)); [done|].
    unfold Rdiv. rewrite Rmult_assoc, Rinv_l by lra.
    unfold Rdiv in Hd. lra. }
  assert (0 < / eps) by (apply Rinv_0_lt_compat; done).
  assert (1 + t < exp t) by (apply exp_ineq1; lra).
  apply (Rmult_lt_reg_r (1 + exp t)); [lra|].
  unfold Rdiv. rewrite Rmult_assoc, Rinv_l by lra.
  assert (eps * / eps = 1) by (apply Rinv_r; lra).
  nra.
Qed.
End sigmoid.

(** Claim C6, as the code has it.  For a positive relaxation length the
    weight is [1 / (1 + exp (-(buffer_width - d) / buffer_relaxation))],
    strictly decreasing in [d], one half at [d = buffer_width], tends to
    0 as [d] grows, and at [d = 0] equals
    [1 / (1 + exp (-(buffer_width / buffer_relaxation)))], which is
    strictly below 1. *)
Theorem get_sigmoid_shape (self : WindShear) :
  (0 < buffer_relaxation self)%R →
  (∀ d, get_sigmoid self d
        = 1 / (1 + exp (- (buffer_width self - d) / buffer_relaxation self)))%R
  ∧ (∀ d1 d2, d1 < d2 → get_sigmoid self d2 < get_sigmoid self d1)%R
  ∧ (get_sigmoid self (buffer_width self) = 1 / 2)%R
  ∧ (get_sigmoid self 0
     = 1 / (1 + exp (- (buffer_width self / buffer_relaxation self))))%R
  ∧ (get_sigmoid self 0 < 1)%R
  ∧ (∀ eps, 0 < eps → ∃ d0, ∀ d, d0 < d → 0 < get_sigmoid self d < eps)%R.
Proof.
  intros Hbr. split; [done|].
  split; [intros d1 d2; by apply sigmoid_decreasing|].
  split; [apply sigmoid_centre|].
  split.
  { unfold get_sigmoid. do 3 f_equal. unfold Rdiv. ring. }
  split; [apply sigmoid_border_lt_1|].
  intros eps Heps. exists (buffer_width self + buffer_relaxation self / eps)%R.
  intros d Hd. split; [apply sigmoid_pos | by apply sigmoid_vanishes].
Qed.

Lemma get_sigmoid_shape_witness :
  (get_sigmoid default_buffer (buffer_width default_buffer) = 1 / 2)%R.
Proof.
  assert (0 < buffer_relaxation default_buffer)%R as Hbr by (cbn; lra).
  exact (proj1 (proj2 (proj2 (get_sigmoid_shape default_buffer Hbr)))).
Defined.

(** With the default buffer the weight at distance 0 is below 0.99
    (it is 1 / (1 + exp (-4)), about 0.982). *)
Lemma get_sigmoid_border_counterexample :
  (get_sigmoid default_buffer 0 < 99 / 100)%R.
Proof.
  unfold get_sigmoid. cbn [buffer_width buffer_relaxation default_buffer].
  replace (- (100 - 0) / (100 / 4))%R with (- (1 + 1 + 1 + 1))%R by field.
  assert (exp (1 + 1 + 1 + 1) <= 81)%R as He.
  { rewrite !exp_plus. pose proof exp_le_3. pose proof (exp_pos 1).
    assert (exp 1 * exp 1 <= 9)%R by nra.
    assert (0 < exp 1 * exp 1)%R by nra.
    replace (exp 1 * exp 1 * exp 1 * exp 1)%R
      with ((exp 1 * exp 1) * (exp 1 * exp 1))%R by ring.
    nra. }
  rewrite exp_Ropp.
  pose proof (exp_pos (1 + 1 + 1 + 1)) as Hp.
  assert (/ 81 <= / exp (1 + 1 + 1 + 1))%R by (apply Rinv_le_contravar; lra).
  apply (Rmult_lt_reg_r (1 + / exp (1 + 1 + 1 + 1))%R); [lra|].
  unfold Rdiv. rewrite Rmult_assoc, Rinv_l by lra. lra.
Qed.

(** ** Complex arithmetic *)

Lemma C_ring_theory : ring_theory (RtoC 0) (RtoC 1) Cadd Cmul Csub Copp (@eq C).
Proof.
  constructor; intros; unfold RtoC, Cadd, Cmul, Csub, Copp;
    repeat match goal with z : C |- _ => destruct z end;
    cbn [fst snd]; f_equal; ring.
Qed.

Add Ring C_ring : C_ring_theory.

Lemma RtoC_mul (a b : R) : RtoC (a * b) = (RtoC a * RtoC b)%C.
Proof. unfold RtoC, Cmul. cbn [fst snd]. f_equal; ring. Qed.

Lemma RtoC_inv (a : R) : RtoC (/ a) = Cinv (RtoC a).
Proof.
  unfold RtoC, Cinv. cbn [fst snd].
  destruct (decide (a = 0%R)) as [->|Ha].
  - rewrite Rinv_0. f_equal; unfold Rdiv; ring.
  - f_equal; field; done.
Qed.

Lemma RtoC_div (a b : R) : RtoC (a / b) = (RtoC a / RtoC b)%C.
Proof. unfold Rdiv, Cdiv. by rewrite RtoC_mul, RtoC_inv. Qed.

(** ** Frequency axes and wavenumber grids *)

Lemma half_split (n : nat) : 0 < n → (n - 1) / 2 + 1 + n / 2 = n.
Proof.
  intros Hn.
  pose proof (Nat.div_mod_eq (n - 1) 2). pose proof (Nat.div_mod_eq n 2).
  pose proof (Nat.mod_upper_bound (n - 1) 2). pose proof (Nat.mod_upper_bound n 2).
  destruct (Nat.Even_or_Odd n) as [[m Hm]|[m Hm]].
  - assert (n / 2 = m) as -> by (subst n; rewrite Nat.mul_comm, Nat.div_mul; lia).
    assert ((n - 1) / 2 = m - 1) as ->; [|lia].
    symmetry. apply (Nat.div_unique _ _ _ 1); lia.
  - assert (n / 2 = m) as -> by (symmetry; apply (Nat.div_unique _ _ _ 1); lia).
    assert ((n - 1) / 2 = m) as ->; [|lia].
    symmetry. apply (Nat.div_unique _ _ _ 0); lia.
Qed.

Lemma length_fftfreq (n : nat) (d : R) : 0 < n → length (fftfreq n d) = n.
Proof.
  intros Hn. unfold fftfreq.
  rewrite length_fmap, length_app, !length_fmap, !length_seq. by apply half_split.
Qed.

Lemma fftfreq_lookup (n : nat) (d : R) (k : nat) :
  0 < n → k < n →
  fftfreq n d !! k = Some (IZR (freq_index n k) * (1 / (INR n * d)))%R.
Proof.
  intros Hn Hk. unfold fftfreq, freq_index.
  pose proof (half_split n Hn) as Hs.
  rewrite list_lookup_fmap. case_decide as Hlt.
  - rewrite lookup_app_l by (rewrite length_fmap, length_seq; done).
    rewrite list_lookup_fmap, lookup_seq_lt by done. done.
  - rewrite lookup_app_r by (rewrite length_fmap, length_seq; lia).
    rewrite length_fmap, length_seq.
    rewrite list_lookup_fmap, lookup_seq_lt by lia.
    change (Some (IZR (Z.of_nat (0 + (k - ((n - 1) / 2 + 1))) - Z.of_nat (n / 2))
                  * (1 / (INR n * d)))%R = Some (IZR (Z.of_nat k - Z.of_nat n) * (1 / (INR n * d)))%R).
    do 3 f_equal. lia.
Qed.

Lemma py_slice_tail {A} (a : list A) : py_slice (Some 1%Z) None 1 a = drop 1 a.
Proof.
  unfold py_slice. rewrite slice_tail.
  apply list_eq; intros i. rewrite lookup_drop.
  destruct (decide (i < length a - 1)) as [Hi|Hi].
  - rewrite omap_total_lookup, lookup_seq_lt by
      (try (apply Forall_seq; intros; apply lookup_lt_is_Some; lia); done).
    done.
  - rewrite (lookup_ge_None_2 a) by lia.
    apply lookup_ge_None_2.
    rewrite omap_total_length, length_seq by
      (apply Forall_seq; intros; apply lookup_lt_is_Some; lia).
    lia.
Qed.

Lemma length_wavenumbers (n : nat) (dx : R) : length (wavenumbers n dx) = n.
Proof.
  unfold wavenumbers. rewrite py_slice_tail, length_drop, length_fftfreq by lia. lia.
Qed.

Lemma wavenumbers_lookup (n : nat) (dx : R) (i : nat) :
  i < n →
  wavenumbers n dx !! i
  = Some (IZR (freq_index (n + 1) (i + 1))
          * (1 / (INR (n + 1) * (2 * PI / (dx * INR n)))))%R.
Proof.
  intros Hi. unfold wavenumbers.
  rewrite py_slice_tail, lookup_drop, fftfreq_lookup by lia.
  replace (1 + i) with (i + 1) by lia. done.
Qed.

Lemma freq_index_nonzero (n i : nat) : i < n → freq_index (n + 1) (i + 1) ≠ 0%Z.
Proof. intros Hi. unfold freq_index. case_decide; lia. Qed.

Lemma wavenumbers_nonzero (n : nat) (dx : R) :
  dx ≠ 0%R → Forall (λ v, v ≠ 0%R) (wavenumbers n dx).
Proof.
  intros Hdx. apply Forall_lookup. intros i v Hv.
  assert (i < n) as Hi.
  { rewrite <- (length_wavenumbers n dx). by eapply lookup_lt_Some. }
  rewrite wavenumbers_lookup in Hv by done. injection Hv as <-.
  assert (INR n ≠ 0)%R by (apply not_0_INR; lia).
  assert (INR (n + 1) ≠ 0)%R by (apply not_0_INR; lia).
  pose proof PI_RGT_0.
  apply Rmult_integral_contrapositive_currified.
  - apply not_0_IZR. by apply freq_index_nonzero.
  - unfold Rdiv. rewrite Rmult_1_l. apply Rinv_neq_0_compat.
    apply Rmult_integral_contrapositive_currified; [done|].
    apply Rmult_integral_contrapositive_currified; [lra|].
    apply Rinv_neq_0_compat. by apply Rmult_integral_contrapositive_currified.
Qed.

Lemma lookup_concat_replicate {A} (a : list A) (m j i : nat) :
  j < m → i < length a → concat (replicate m a) !! (j * length a + i) = a !! i.
Proof.
  revert m. induction j as [|j IH]; intros [|m] Hj Hi; try lia; cbn [replicate concat].
  - rewrite lookup_app_l by lia. done.
  - rewrite lookup_app_r by lia.
    replace (S j * length a + i - length a) with (j * length a + i) by lia.
    apply IH; lia.
Qed.

Lemma lookup_concat_rows {A} (b : list A) (n j i : nat) :
  i < n → concat (replicate n <$> b) !! (j * n + i) = b !! j.
Proof.
  intros Hi. revert j. induction b as [|v b IH]; intros j; [done|].
  cbn [fmap list_fmap concat]. destruct j as [|j].
  - rewrite lookup_app_l by (rewrite length_replicate; lia).
    by apply lookup_replicate_2.
  - rewrite lookup_app_r by (rewrite length_replicate; lia).
    rewrite length_replicate.
    replace (S j * n + i - n) with (j * n + i) by lia. apply IH.
Qed.

Lemma length_concat_replicate {A} (a : list A) (m : nat) :
  length (concat (replicate m a)) = m * length a.
Proof. induction m as [|m IH]; [done|]. cbn. rewrite length_app, IH. done. Qed.

Lemma length_concat_rows {A} (b : list A) (n : nat) :
  length (concat (replicate n <$> b)) = length b * n.
Proof.
  induction b as [|v b IH]; [done|]. cbn. rewrite length_app, length_replicate, IH. done.
Qed.

Lemma meshgrid_wf {A} (a b : list A) :
  wf (meshgrid a b).1 ∧ wf (meshgrid a b).2
  ∧ shape (meshgrid a b).1 = (length b, length a)
  ∧ shape (meshgrid a b).2 = (length b, length a).
Proof.
  unfold meshgrid, wf. cbn [fst snd shape data].
  rewrite length_concat_replicate, length_concat_rows. done.
Qed.

Lemma meshgrid_cells {A} (a b : list A) (j i : nat) :
  j < length b → i < length a →
  at2 (meshgrid a b).1 j i = a !! i ∧ at2 (meshgrid a b).2 j i = b !! j.
Proof.
  intros Hj Hi. unfold at2, meshgrid. cbn [fst snd shape data].
  split; [by apply lookup_concat_replicate | by apply lookup_concat_rows].
Qed.

Lemma meshgrid_Forall {A} (P : A → Prop) (a b : list A) :
  Forall P a → Forall P b →
  Forall P (data (meshgrid a b).1) ∧ Forall P (data (meshgrid a b).2).
Proof.
  intros Ha Hb. unfold meshgrid. cbn [fst snd data]. split.
  - apply Forall_concat, Forall_replicate, Ha.
  - apply Forall_concat, Forall_fmap. eapply Forall_impl; [exact Hb|].
    intros v Hv. by apply Forall_replicate.
Qed.

Lemma k_cell_pos (a b : R) : a ≠ 0%R → (0 < k_cell a b)%R.
Proof.
  intros Ha. unfold k_cell. apply sqrt_lt_R0.
  assert (0 < a * a)%R by nra. nra.
Qed.

Lemma RtoC_neq_0 (r : R) : r ≠ 0%R → RtoC r ≠ RtoC 0.
Proof. intros Hr Heq. apply Hr. by injection Heq. Qed.

(** ** Stepping through a method body *)

Lemma bind_ret {A B} (a : A) (k : A → M B) (s : WindShear) :
  (mret a ≫= k) s = k a s.
Proof. reflexivity. Qed.

Lemma bind_assoc {A B E} (m : M A) (f : A → M B) (g : B → M E) (s : WindShear) :
  ((m ≫= f) ≫= g) s = (m ≫= λ a, f a ≫= g) s.
Proof. unfold mbind, M_bind. destruct (m s) as [[a|e] s']; [|done]. done. Qed.

Lemma bind_cgrid_get {B} (key : string) (v : pyval) (k : pyval → M B) (s : WindShear) :
  cgrid s !! key = Some v → (cgrid_get key ≫= k) s = k v s.
Proof. intros H. unfold mbind, M_bind, cgrid_get. by rewrite H. Qed.

Lemma bind_cgrid_get_missing {B} (key : string) (k : pyval → M B) (s : WindShear) :
  cgrid s !! key = None → (cgrid_get key ≫= k) s = (Raise (KeyError key), s).
Proof. intros H. unfold mbind, M_bind, cgrid_get. by rewrite H. Qed.

Lemma bind_igrid_get {B} (key : string) (v : pyval) (k : pyval → M B) (s : WindShear) :
  igrid s !! key = Some v → (igrid_get key ≫= k) s = k v s.
Proof. intros H. unfold mbind, M_bind, igrid_get. by rewrite H. Qed.

Lemma bind_igrid_get_missing {B} (key : string) (k : pyval → M B) (s : WindShear) :
  igrid s !! key = None → (igrid_get key ≫= k) s = (Raise (KeyError key), s).
Proof. intros H. unfold mbind, M_bind, igrid_get. by rewrite H. Qed.

Lemma bind_cgrid_set {B} (key : string) (v : pyval) (k : unit → M B) (s : WindShear) :
  (cgrid_set key v ≫= k) s
  = k () (Self (igrid s) (<[key := v]> (cgrid s)) (buffer_width s) (buffer_relaxation s)
               (L s) (z0 s) (l s) (D s) (x0 s) (y0 s)).
Proof. reflexivity. Qed.

Lemma bind_lift_ok {A B} (r : result A) (a : A) (k : A → M B) (s : WindShear) :
  r = Ok a → (lift r ≫= k) s = k a s.
Proof. by intros ->. Qed.

Lemma bind_lift_raise {A B} (r : result A) (e : exn) (k : A → M B) (s : WindShear) :
  r = Raise e → (lift r ≫= k) s = (Raise e, s).
Proof. by intros ->. Qed.

Lemma bind_attr_opt {A B} (name : string) (f : WindShear → option A) (a : A)
    (k : A → M B) (s : WindShear) :
  f s = Some a → (attr_opt name f ≫= k) s = k a s.
Proof. intros H. unfold mbind, M_bind, attr_opt. by rewrite H. Qed.

Lemma bind_attr {A B} (f : WindShear → A) (k : A → M B) (s : WindShear) :
  (attr f ≫= k) s = k (f s) s.
Proof. reflexivity. Qed.

Lemma bind_ext {A B} (m1 m2 : M A) (k1 k2 : A → M B) :
  (∀ s, m1 s = m2 s) → (∀ a s, k1 a s = k2 a s) →
  ∀ s, (m1 ≫= k1) s = (m2 ≫= k2) s.
Proof.
  intros Hm Hk s. unfold mbind, M_bind. rewrite Hm.
  destruct (m2 s) as [[a|e] s']; [apply Hk | done].
Qed.

Lemma raises_bind {A B} (m : M A) (k : A → M B) :
  (∀ a s, ∃ e s', k a s = (Raise e, s')) →
  ∀ s, ∃ e s', (m ≫= k) s = (Raise e, s').
Proof.
  intros Hk s. unfold mbind, M_bind.
  destruct (m s) as [[a|e] s1]; [apply Hk | by eexists _, _].
Qed.

(** ** Properties kept by every step of a method *)

Section preserves.
Context (Rel : WindShear → WindShear → Prop).
Context (Rel_refl : ∀ s, Rel s s).
Context (Rel_trans : ∀ s1 s2 s3, Rel s1 s2 → Rel s2 s3 → Rel s1 s3).

Lemma preserves_bind {A B} (m : M A) (k : A → M B) :
  preserves Rel m → (∀ a, preserves Rel (k a)) → preserves Rel (m ≫= k).
Proof using Rel_trans.
  intros Hm Hk s r s'. unfold mbind, M_bind.
  destruct (m s) as [[a|e] s1] eqn:E; intros H.
  - eapply Rel_trans; [eapply Hm, E | eapply Hk, H].
  - injection H as _ <-. eapply Hm, E.
Qed.

Lemma preserves_pure {A} (f : WindShear → result A) : preserves Rel (λ s, (f s, s)).
Proof using Rel_refl. intros s r s' [= _ <-]. apply Rel_refl. Qed.

Lemma preserves_ret {A} (a : A) : preserves Rel (mret a).
Proof using Rel_refl. apply (preserves_pure (λ _, Ok a)). Qed.

Lemma preserves_raise {A} (e : exn) : preserves Rel (raise (A:=A) e).
Proof using Rel_refl. apply (preserves_pure (λ _, Raise e)). Qed.

Lemma preserves_lift {A} (r : result A) : preserves Rel (lift r).
Proof using Rel_refl. apply (preserves_pure (λ _, r)). Qed.

Lemma preserves_attr {A} (f : WindShear → A) : preserves Rel (attr f).
Proof using Rel_refl. apply (preserves_pure (λ s, Ok (f s))). Qed.

Lemma preserves_attr_opt {A} (name : string) (f : WindShear → option A) :
  preserves Rel (attr_opt name f).
Proof using Rel_refl.
  intros s r s'. unfold attr_opt. destruct (f s); intros [= _ <-]; apply Rel_refl.
Qed.

Lemma preserves_igrid_get (k : string) : preserves Rel (igrid_get k).
Proof using Rel_refl.
  intros s r s'. unfold igrid_get. destruct (igrid s !! k); intros [= _ <-]; apply Rel_refl.
Qed.

Lemma preserves_cgrid_get (k : string) : preserves Rel (cgrid_get k).
Proof using Rel_refl.
  intros s r s'. unfold cgrid_get. destruct (cgrid s !! k); intros [= _ <-]; apply Rel_refl.
Qed.

Lemma preserves_as_float (v : pyval) : preserves Rel (as_float v).
Proof using Rel_refl. destruct v; [apply preserves_ret | apply preserves_raise..]. Qed.

Lemma preserves_as_arr (v : pyval) : preserves Rel (as_arr v).
Proof using Rel_refl.
  destruct v; [apply preserves_raise | apply preserves_ret | apply preserves_raise].
Qed.

Lemma preserves_as_nan (v : pyval) : preserves Rel (as_nan v).
Proof using Rel_refl. destruct v; [apply preserves_raise.. | apply preserves_ret]. Qed.

Lemma preserves_decide {A} (P : Prop) `{Decision P} (m1 m2 : M A) :
  preserves Rel m1 → preserves Rel m2 → preserves Rel (if decide P then m1 else m2).
Proof. by destruct (decide P). Qed.

Lemma preserves_let_pair {A B E} (p : A * B) (k : A → B → M E) :
  (∀ a b, preserves Rel (k a b)) → preserves Rel (let '(a, b) := p in k a b).
Proof. destruct p. auto. Qed.
End preserves.

Lemma call_frame_refl (s : WindShear) : call_frame s s.
Proof. by constructor. Qed.

Lemma call_frame_trans (s1 s2 s3 : WindShear) :
  call_frame s1 s2 → call_frame s2 s3 → call_frame s1 s3.
Proof.
  intros [Hi1 Hc1 ? ? ? ? ? ? ? ?] [Hi2 Hc2 ? ? ? ? ? ? ? ?].
  constructor; try congruence.
  - intros k Hk. rewrite Hi2, Hi1 by done. done.
  - intros k Hk. rewrite Hc2, Hc1 by done. done.
Qed.

Lemma frame_cgrid_set (k : string) (v : pyval) :
  working_key k → preserves call_frame (cgrid_set k v).
Proof.
  intros Hk s r s' [= _ <-]. constructor; cbn; try done.
  intros k' Hk'. apply lookup_insert_ne. intros ->. done.
Qed.

Lemma frame_igrid_set (k : string) (v : pyval) :
  result_key k → preserves call_frame (igrid_set k v).
Proof.
  intros Hk s r s' [= _ <-]. constructor; cbn; try done.
  intros k' Hk'. apply lookup_insert_ne. intros ->. done.
Qed.

Ltac frame_step :=
  first
    [ apply preserves_bind; [exact call_frame_trans | | intros ?]
    | apply preserves_ret; exact call_frame_refl
    | apply preserves_raise; exact call_frame_refl
    | apply preserves_lift; exact call_frame_refl
    | apply preserves_attr; exact call_frame_refl
    | apply preserves_attr_opt; exact call_frame_refl
    | apply preserves_igrid_get; exact call_frame_refl
    | apply preserves_cgrid_get; exact call_frame_refl
    | apply preserves_as_float; exact call_frame_refl
    | apply preserves_as_arr; exact call_frame_refl
    | apply preserves_as_nan; exact call_frame_refl
    | apply preserves_decide
    | apply frame_cgrid_set; unfold working_key;
      solve [repeat first [reflexivity | left; reflexivity | right]]
    | apply frame_igrid_set; unfold result_key;
      solve [repeat first [reflexivity | left; reflexivity | right]]
    | match goal with |- preserves _ (let '(_, _) := ?p in _) => destruct p end ].

(** ** Construction *)

(** The constructor never writes to [igrid] after creating it. *)
Lemma init_igrid (fl : rounding) (s0 : WindShear) (r : result ()) (s : WindShear) :
  set_computational_grid fl s0 = (r, s) → igrid s = igrid s0.
Proof.
  revert s0 r s.
  change (preserves (λ s0 s, igrid s = igrid s0) (set_computational_grid fl)).
  assert (∀ s : WindShear, igrid s = igrid s) as Hrefl by done.
  assert (∀ s1 s2 s3 : WindShear,
            igrid s2 = igrid s1 → igrid s3 = igrid s2 → igrid s3 = igrid s1) as Htrans
    by (intros; congruence).
  unfold set_computational_grid.
  repeat first
    [ apply preserves_bind; [exact Htrans | | intros ?]
    | apply preserves_lift; exact Hrefl
    | apply preserves_attr; exact Hrefl
    | apply preserves_attr_opt; exact Hrefl
    | apply preserves_igrid_get; exact Hrefl
    | apply preserves_cgrid_get; exact Hrefl
    | apply preserves_as_float; exact Hrefl
    | apply preserves_as_arr; exact Hrefl
    | match goal with |- preserves _ (let '(_, _) := ?p in _) => destruct p end
    | (intros ? ? ? [= _ <-]; reflexivity) ].
Qed.

(** A constructed instance has a nonzero grid spacing, its reference
    grid and its pivot, and no elevation on the computational grid yet. *)
Lemma init_outcome (fl : rounding) (x y z : ndarray R) (dx dy buffer_width : R)
    (buffer_relaxation : option R) (L z0 l : R) (s : WindShear) :
  __init__ fl x y z dx dy buffer_width buffer_relaxation L z0 l = Ok s →
  dx ≠ 0%R ∧ dy ≠ 0%R
  ∧ cgrid s !! "dx" = Some (VFloat dx) ∧ cgrid s !! "dy" = Some (VFloat dy)
  ∧ (∃ xi yi, cgrid s !! "xi" = Some (VArr xi) ∧ cgrid s !! "yi" = Some (VArr yi))
  ∧ cgrid s !! "z" = None
  ∧ (∃ ox oy, x0 s = Some ox ∧ y0 s = Some oy).
Proof.
  unfold __init__, set_computational_grid.
  rewrite bind_assoc, (bind_igrid_get "x" (VArr x)) by (cbn; by simplify_map_eq).
  cbn [as_arr]. rewrite bind_ret.
  rewrite bind_assoc, (bind_igrid_get "y" (VArr y)) by (cbn; by simplify_map_eq).
  cbn [as_arr]. rewrite bind_ret.
  unfold amax, amin.
  destruct (data x) as [|vx lx] eqn:Ex; [done|].
  destruct (data y) as [|vy ly] eqn:Ey; [done|].
  rewrite !(bind_lift_ok _ _ _ _ eq_refl).
  unfold attr at 1. unfold mbind at 1, M_bind at 1.
  unfold set_D at 1. unfold mbind at 1, M_bind at 1.
  erewrite (bind_attr_opt "D" D); [|reflexivity].
  rewrite bind_assoc, (bind_cgrid_get "dx" (VFloat dx)) by (cbn; by simplify_map_eq).
  cbn [as_float]. rewrite bind_ret.
  rewrite bind_assoc, (bind_cgrid_get "dy" (VFloat dy)) by (cbn; by simplify_map_eq).
  cbn [as_float]. rewrite bind_ret.
  unfold get_exact_grid, grid_axis, arange.
  destruct (decide (dx = 0%R)) as [Hdx|Hdx].
  { cbn [mbind result_bind]. by rewrite (bind_lift_raise _ ValueError). }
  destruct (decide (dy = 0%R)) as [Hdy|Hdy].
  { cbn [mbind result_bind]. by rewrite (bind_lift_raise _ ValueError). }
  cbn [mbind result_bind].
  rewrite (bind_lift_ok _ _ _ _ eq_refl).
  destruct (meshgrid _ _) as [xc yc].
  cbn. intros [= <-]. cbn. split; [done|]. split; [done|].
  split; [by simplify_map_eq|]. split; [by simplify_map_eq|].
  split; [eexists _, _; by simplify_map_eq|].
  split; [by simplify_map_eq|]. by eexists _, _.
Qed.

Lemma init_succeeds (fl : rounding) (x y z : ndarray R) (dx dy buffer_width : R)
    (buffer_relaxation : option R) (L z0 l : R) :
  data x ≠ [] → data y ≠ [] → dx ≠ 0%R → dy ≠ 0%R →
  ∃ s, __init__ fl x y z dx dy buffer_width buffer_relaxation L z0 l = Ok s.
Proof.
  intros Hx Hy Hdx Hdy.
  unfold __init__, set_computational_grid.
  rewrite bind_assoc, (bind_igrid_get "x" (VArr x)) by (cbn; by simplify_map_eq).
  cbn [as_arr]. rewrite bind_ret.
  rewrite bind_assoc, (bind_igrid_get "y" (VArr y)) by (cbn; by simplify_map_eq).
  cbn [as_arr]. rewrite bind_ret.
  unfold amax, amin.
  destruct (data x) as [|vx lx] eqn:Ex; [done|].
  destruct (data y) as [|vy ly] eqn:Ey; [done|].
  rewrite !(bind_lift_ok _ _ _ _ eq_refl).
  unfold attr at 1. unfold mbind at 1, M_bind at 1.
  unfold set_D at 1. unfold mbind at 1, M_bind at 1.
  erewrite (bind_attr_opt "D" D); [|reflexivity].
  rewrite bind_assoc, (bind_cgrid_get "dx" (VFloat dx)) by (cbn; by simplify_map_eq).
  cbn [as_float]. rewrite bind_ret.
  rewrite bind_assoc, (bind_cgrid_get "dy" (VFloat dy)) by (cbn; by simplify_map_eq).
  cbn [as_float]. rewrite bind_ret.
  unfold get_exact_grid, grid_axis, arange.
  rewrite !decide_False by done.
  cbn [mbind result_bind].
  rewrite (bind_lift_ok _ _ _ _ eq_refl).
  destruct (meshgrid _ _) as [xc yc]. cbn. by eexists.
Qed.

(** Claim C10.  On an instance that the constructor has just returned,
    [get_shear] raises [KeyError] for the key [dtaux] and leaves the
    instance as it was: [igrid] holds neither perturbation field. *)
Theorem get_shear_before_call (fl : rounding) (x y z : ndarray R) (dx dy buffer_width : R)
    (buffer_relaxation : option R) (L z0 l : R) (s : WindShear) :
  __init__ fl x y z dx dy buffer_width buffer_relaxation L z0 l = Ok s →
  get_shear s = (Raise (KeyError "dtaux"), s)
  ∧ igrid s !! "dtaux" = None ∧ igrid s !! "dtauy" = None.
Proof.
  unfold __init__. destruct (set_computational_grid _ _) as [[[]|e] s'] eqn:E; [|done].
  intros [= <-]. apply init_igrid in E. cbn [igrid] in E.
  assert (igrid s' !! "dtaux" = None) as Hx by (rewrite E; by simplify_map_eq).
  assert (igrid s' !! "dtauy" = None) as Hy by (rewrite E; by simplify_map_eq).
  split; [|done].
  unfold get_shear. by rewrite bind_igrid_get_missing.
Qed.

Lemma get_shear_before_call_witness :
  ∃ s, __init__ exact_rounding unit_square_x unit_square_y unit_square_z
         1 1 100 None 100 (1 / 1000) 10
       = Ok s
     ∧ get_shear s = (Raise (KeyError "dtaux"), s).
Proof.
  destruct (init_succeeds exact_rounding unit_square_x unit_square_y unit_square_z
              1 1 100 None 100 (1 / 1000) 10) as [s Hs];
    [discriminate | discriminate | lra | lra |].
  exists s. split; [exact Hs|].
  exact (proj1 (get_shear_before_call _ _ _ _ _ _ _ _ _ _ _ s Hs)).
Defined.

(** ** [compute_shear] *)

Section compute_shear.
Context (fft2 : ndarray (option R) → ndarray C)
        (ifft2 : ndarray C → ndarray C)
        (jn : nat → C → C)
        (csqrt : C → C).

Lemma Forall_zeros (sh : nat * nat) : Forall (λ v, v = 0%R) (data (zeros sh)).
Proof. unfold zeros. cbn [data]. by apply Forall_replicate. Qed.

Lemma zeros_wf (sh : nat * nat) : wf (zeros sh) ∧ shape (zeros sh) = sh.
Proof. unfold wf, zeros. cbn [data shape]. by rewrite length_replicate. Qed.

(** Before the first population of the grid there is no elevation to
    take a shape from: whatever the speed, the lookup of [z] raises. *)
Lemma compute_shear_without_elevation (u0 : R) (s : WindShear) :
  cgrid s !! "z" = None →
  compute_shear fft2 ifft2 jn csqrt u0 s = (Raise (KeyError "z"), s).
Proof.
  intros Hz. unfold compute_shear.
  destruct (decide (u0 = 0%R)); by rewrite bind_assoc, bind_cgrid_get_missing.
Qed.

(** Claim C3.  On a computational grid that holds an elevation [z],
    [compute_shear] with speed 0 returns normally, whatever the
    numerical kernels are, and leaves in [dtaux] and [dtauy] two arrays
    of the shape of [z] whose entries are all 0; nothing else changes. *)
Theorem compute_shear_zero_speed (s : WindShear) (z : ndarray (option R)) :
  cgrid s !! "z" = Some (VNan z) →
  compute_shear fft2 ifft2 jn csqrt 0 s
  = (Ok (),
     Self (igrid s)
          (<["dtauy" := VArr (zeros (shape z))]>
             (<["dtaux" := VArr (zeros (shape z))]> (cgrid s)))
          (buffer_width s) (buffer_relaxation s) (L s) (z0 s) (l s)
          (D s) (x0 s) (y0 s))
  ∧ shape (zeros (shape z)) = shape z
  ∧ wf (zeros (shape z))
  ∧ Forall (λ v, v = 0%R) (data (zeros (shape z))).
Proof.
  intros Hz. split; [|split; [apply zeros_wf|split; [apply zeros_wf|apply Forall_zeros]]].
  unfold compute_shear. rewrite decide_True by done.
  rewrite bind_assoc, (bind_cgrid_get "z" (VNan z)) by done.
  cbn [as_nan]. rewrite bind_ret, bind_cgrid_set.
  rewrite bind_assoc, (bind_cgrid_get "z" (VNan z))
    by (cbn [cgrid]; rewrite lookup_insert_ne; done).
  cbn [as_nan]. rewrite bind_ret. reflexivity.
Qed.

Lemma sigma_cell_spec (self : WindShear) (kx : R) :
  sigma_cell csqrt self kx = spec_sigma csqrt self kx.
Proof.
  unfold sigma_cell, spec_sigma. f_equal.
  rewrite !RtoC_div, !RtoC_mul, RtoC_div. unfold Cdiv. ring.
Qed.

Lemma dtaux_cell_spec (self : WindShear) (u0 : R) (hs : C) (kx ky : R) :
  dtaux_cell jn csqrt self u0 hs kx ky = spec_dtaux_spectrum jn csqrt self u0 hs kx ky.
Proof.
  unfold dtaux_cell, spec_dtaux_spectrum, k_cell. cbv zeta.
  rewrite sigma_cell_spec, !(RtoC_div _ (sqrt _)), (RtoC_div 2).
  unfold Cdiv. ring.
Qed.

Lemma dtauy_cell_spec (self : WindShear) (u0 : R) (hs : C) (kx ky : R) :
  dtauy_cell jn csqrt self u0 hs kx ky = spec_dtauy_spectrum jn csqrt self u0 hs kx ky.
Proof.
  unfold dtauy_cell, spec_dtauy_spectrum, k_cell. cbv zeta.
  rewrite sigma_cell_spec, (RtoC_div _ (sqrt _)), (RtoC_div 2), (RtoC_mul kx ky),
    (RtoC_mul 2 (sqrt 2)).
  unfold Cdiv. ring.
Qed.

(** Arrays given cell by cell. *)
Lemma length_concat_table {A} (g : nat → list A) (n a m : nat) :
  (∀ j, length (g j) = n) → length (concat (g <$> seq a m)) = m * n.
Proof.
  intros Hg. revert a. induction m as [|m IH]; intros a; [done|].
  cbn [seq fmap list_fmap concat]. rewrite length_app, Hg, IH. lia.
Qed.

Lemma lookup_concat_table {A} (g : nat → list A) (n a m j i : nat) :
  (∀ j, length (g j) = n) → j < m → i < n →
  concat (g <$> seq a m) !! (j * n + i) = g (a + j) !! i.
Proof.
  intros Hg. revert a j. induction m as [|m IH]; intros a j Hj Hi; [lia|].
  cbn [seq fmap list_fmap concat]. destruct j as [|j].
  - rewrite lookup_app_l by (rewrite Hg; lia). by rewrite Nat.add_0_r.
  - rewrite lookup_app_r by (rewrite Hg; lia). rewrite Hg.
    replace (S j * n + i - n) with (j * n + i) by lia.
    rewrite IH by lia. by replace (S a + j) with (a + S j) by lia.
Qed.

Lemma spec_table_wf {A} (ny nx : nat) (f : nat → nat → A) :
  wf (spec_table ny nx f) ∧ shape (spec_table ny nx f) = (ny, nx).
Proof.
  split; [|done]. unfold wf, spec_table. cbn [data shape fst snd].
  apply length_concat_table. intros j. by rewrite length_fmap, length_seq.
Qed.

Lemma spec_table_cell {A} (ny nx : nat) (f : nat → nat → A) (j i : nat) :
  j < ny → i < nx → at2 (spec_table ny nx f) j i = Some (f j i).
Proof.
  intros Hj Hi. unfold at2, spec_table. cbn [data shape snd].
  rewrite (lookup_concat_table _ nx) by (intros; by rewrite ?length_fmap, ?length_seq).
  by rewrite list_lookup_fmap, lookup_seq_lt.
Qed.

(** Two well-formed arrays of one shape with the same cells are equal. *)
Lemma array_ext {A} (a b : ndarray A) (ny nx : nat) :
  shape a = (ny, nx) → shape b = (ny, nx) → wf a → wf b →
  (∀ j i, j < ny → i < nx → at2 a j i = at2 b j i) → a = b.
Proof.
  destruct a as [sha da], b as [shb db]. unfold wf, at2. cbn [shape data].
  intros -> -> Ha Hb H. cbn [fst snd] in *. f_equal.
  apply list_eq. intros n.
  destruct (decide (n < ny * nx)) as [Hn|Hn].
  - assert (0 < nx) as Hnx by (destruct nx; lia).
    pose proof (Nat.div_mod_eq n nx) as Hdm.
    pose proof (Nat.mod_upper_bound n nx ltac:(lia)) as Hm.
    assert (n / nx < ny) as Hd by (apply Nat.Div0.div_lt_upper_bound; lia).
    specialize (H (n / nx) (n mod nx) Hd Hm).
    replace (n / nx * nx + n mod nx) with n in H by lia. done.
  - rewrite !lookup_ge_None_2 by lia. done.
Qed.

Lemma meshgrid_table (xs ys : list R) (fx fy : nat → R) (ny nx : nat) :
  length xs = nx → length ys = ny →
  (∀ i, i < nx → xs !! i = Some (fx i)) →
  (∀ j, j < ny → ys !! j = Some (fy j)) →
  meshgrid xs ys = (spec_table ny nx (λ _ i, fx i), spec_table ny nx (λ j _, fy j)).
Proof.
  intros Lx Ly Hx Hy.
  pose proof (meshgrid_wf xs ys) as (W1 & W2 & S1 & S2). rewrite Lx, Ly in S1, S2.
  rewrite (surjective_pairing (meshgrid xs ys)). f_equal.
  - apply (array_ext _ _ ny nx); [done | apply spec_table_wf | done | apply spec_table_wf |].
    intros j i Hj Hi. rewrite spec_table_cell by done.
    destruct (meshgrid_cells xs ys j i) as [-> _]; [lia..|]. by apply Hx.
  - apply (array_ext _ _ ny nx); [done | apply spec_table_wf | done | apply spec_table_wf |].
    intros j i Hj Hi. rewrite spec_table_cell by done.
    destruct (meshgrid_cells xs ys j i) as [_ ->]; [lia..|]. by apply Hy.
Qed.

Lemma azip3_table (f : C → R → R → C) (hs : ndarray C) (ny nx : nat) (fx fy : nat → R) :
  shape hs = (ny, nx) → wf hs →
  azip3 f hs (spec_table ny nx (λ _ i, fx i)) (spec_table ny nx (λ j _, fy j))
  = spec_table ny nx (λ j i, f (spec_cell hs j i) (fx i) (fy j)).
Proof.
  intros Hsh Hwf.
  destruct (spec_table_wf ny nx (λ _ i : nat, fx i)) as [Wx Sx].
  destruct (spec_table_wf ny nx (λ (j : nat) (_ : nat), fy j)) as [Wy Sy].
  unfold wf in Hwf, Wx, Wy. rewrite Hsh in Hwf. rewrite Sx in Wx. rewrite Sy in Wy.
  cbn [fst snd] in Hwf, Wx, Wy.
  apply (array_ext _ _ ny nx); [done | apply spec_table_wf | | apply spec_table_wf |].
  - unfold wf, azip3. cbn [data shape]. rewrite Hsh. cbn [fst snd].
    rewrite length_zip_with, length_zip. lia.
  - intros j i Hj Hi. rewrite spec_table_cell by done.
    pose proof (spec_table_cell ny nx (λ _ i : nat, fx i) j i Hj Hi) as Cx.
    pose proof (spec_table_cell ny nx (λ (j : nat) (_ : nat), fy j) j i Hj Hi) as Cy.
    unfold at2 in Cx, Cy |- *. rewrite Sx in Cx. rewrite Sy in Cy.
    unfold azip3, spec_cell. cbn [data shape]. rewrite Hsh. cbn [snd] in Cx, Cy |- *.
    destruct (data hs !! (j * nx + i)) as [h|] eqn:Hh.
    2:{ exfalso. apply lookup_ge_None_1 in Hh.
        assert ((j + 1) * nx ≤ ny * nx) by (apply Nat.mul_le_mono_r; lia).
        unfold C in *. lia. }
    unfold C in *. rewrite lookup_zip_with.
    rewrite (lookup_zip_Some _ _ _ _ _ Hh Cx), Cy. done.
Qed.

Lemma spec_cell_opp (a : ndarray C) (j i : nat) :
  j < (shape a).1 → i < (shape a).2 → wf a →
  spec_cell (amap Copp a) j i = (- spec_cell a j i)%C.
Proof.
  intros Hj Hi Hwf. unfold spec_cell, amap. cbn [data shape].
  rewrite list_lookup_fmap.
  destruct (data a !! (j * (shape a).2 + i)) as [h|] eqn:Hh; [done|].
  exfalso. apply lookup_ge_None_1 in Hh. unfold wf in Hwf.
  assert ((j + 1) * (shape a).2 ≤ (shape a).1 * (shape a).2)
    by (apply Nat.mul_le_mono_r; lia).
  unfold C in *. lia.
Qed.

Lemma spec_table_ext {A} (ny nx : nat) (f g : nat → nat → A) :
  (∀ j i, j < ny → i < nx → f j i = g j i) → spec_table ny nx f = spec_table ny nx g.
Proof.
  intros H. apply (array_ext _ _ ny nx); try apply spec_table_wf.
  intros j i Hj Hi. rewrite !spec_table_cell by done. f_equal. by apply H.
Qed.

(** The wavenumber axis of the code has the entries the specification
    names. *)
Lemma wavenumbers_spec (n : nat) (dx : R) (i : nat) :
  i < n → wavenumbers n dx !! i = Some (spec_wavenumber n dx i).
Proof.
  intros Hi. rewrite wavenumbers_lookup by done. f_equal.
  unfold spec_wavenumber, spec_frequency, freq_index.
  replace ((n + 1 - 1) / 2) with (n / 2) by (f_equal; lia).
  pose proof (Nat.div_mod_eq n 2). pose proof (Nat.mod_upper_bound n 2).
  repeat case_decide; try (exfalso; lia).
  - rewrite <- INR_IZR_INZ. unfold Rdiv. ring.
  - rewrite minus_IZR, <- !INR_IZR_INZ. unfold Rdiv. ring.
Qed.

Lemma nonzero_divisor_ok (d : R) : d ≠ 0%R → nonzero_divisor d = Ok ().
Proof. intros H. unfold nonzero_divisor. by rewrite decide_False. Qed.

Lemma quotient_pos_divisor (a b : R) : (0 < a / b)%R → b ≠ 0%R.
Proof. intros H ->. unfold Rdiv in H. rewrite Rinv_0 in H. lra. Qed.

End compute_shear.

Lemma compute_shear_zero_speed_witness :
  cgrid (compute_shear fft2_stub ifft2_stub jn_stub csqrt_stub 0 one_cell).2 !! "dtaux"
  = Some (VArr (zeros (1, 1))).
Proof.
  pose proof (compute_shear_zero_speed fft2_stub ifft2_stub jn_stub csqrt_stub
                one_cell (Array (1, 1) [None]) eq_refl) as [H _].
  rewrite H. reflexivity.
Defined.


(** Claim C9.  On every constructed instance the grid spacings held by
    [cgrid] are nonzero, and for every grid shape each entry of the
    wavenumber arrays [kx] and [ky] of [compute_shear] is nonzero; hence
    [k] is positive in every cell and neither divisor [k] nor [kx^2]
    (as a real or as a complex number) is zero. *)
Theorem wavenumber_grid_nonzero (fl : rounding) (x y z : ndarray R) (dx dy buffer_width : R)
    (buffer_relaxation : option R) (L z0 l : R) (s : WindShear) :
  __init__ fl x y z dx dy buffer_width buffer_relaxation L z0 l = Ok s →
  cgrid s !! "dx" = Some (VFloat dx) ∧ cgrid s !! "dy" = Some (VFloat dy)
  ∧ ∀ nx ny kx ky, meshgrid (wavenumbers nx dx) (wavenumbers ny dy) = (kx, ky) →
      shape kx = (ny, nx) ∧ shape ky = (ny, nx)
      ∧ Forall (λ v, v ≠ 0%R) (data kx)
      ∧ Forall (λ v, v ≠ 0%R) (data ky)
      ∧ ∀ n a b, data kx !! n = Some a → data ky !! n = Some b →
          (0 < k_cell a b)%R ∧ (a ^ 2 ≠ 0)%R
          ∧ RtoC (k_cell a b) ≠ RtoC 0 ∧ RtoC (a ^ 2) ≠ RtoC 0.
Proof.
  intros Hinit. apply init_outcome in Hinit as (Hdx & Hdy & Hcx & Hcy & _).
  split; [done|]. split; [done|].
  intros nx ny kx ky Hm.
  pose proof (meshgrid_wf (wavenumbers nx dx) (wavenumbers ny dy)) as (_ & _ & Hsx & Hsy).
  pose proof (meshgrid_Forall (λ v, v ≠ 0%R) _ _
                (wavenumbers_nonzero nx dx Hdx) (wavenumbers_nonzero ny dy Hdy)) as [Hx Hy].
  rewrite Hm in *. cbn [fst snd] in *. rewrite !length_wavenumbers in *.
  split; [done|]. split; [done|]. split; [done|]. split; [done|].
  intros n a b Ha Hb.
  assert (a ≠ 0%R) as Ha0 by (by eapply (Forall_lookup_1 _ _ _ _ Hx)).
  assert (a ^ 2 ≠ 0)%R as Ha2 by (apply pow_nonzero; done).
  pose proof (k_cell_pos a b Ha0) as Hk.
  split; [done|]. split; [done|].
  split; apply RtoC_neq_0; [lra | done].
Qed.

Lemma wavenumber_grid_nonzero_witness :
  ∃ s, __init__ exact_rounding unit_square_x unit_square_y unit_square_z
         1 1 100 None 100 (1 / 1000) 10
       = Ok s
     ∧ Forall (λ v, v ≠ 0%R) (data (meshgrid (wavenumbers 2 1) (wavenumbers 2 1)).1).
Proof.
  destruct (init_succeeds exact_rounding unit_square_x unit_square_y unit_square_z
              1 1 100 None 100 (1 / 1000) 10) as [s Hs];
    [discriminate | discriminate | lra | lra |].
  exists s. split; [exact Hs|].
  destruct (wavenumber_grid_nonzero _ _ _ _ _ _ _ _ _ _ _ s Hs) as (_ & _ & H).
  destruct (H 2 2 _ _ eq_refl) as (_ & _ & Hx & _). exact Hx.
Defined.

(** ** The frame of an invocation *)

Section frame.
Context (fft2 : ndarray (option R) → ndarray C)
        (ifft2 : ndarray C → ndarray C)
        (jn : nat → C → C)
        (csqrt : C → C)
        (griddata_cubic : list (R * R) → list R → list (R * R) → list (option R)).

Lemma frame_populate (alpha : R) :
  preserves call_frame (populate_computational_grid griddata_cubic alpha).
Proof. unfold populate_computational_grid. repeat frame_step. Qed.

Lemma frame_compute_shear (u0 : R) :
  preserves call_frame (compute_shear fft2 ifft2 jn csqrt u0).
Proof. unfold compute_shear. repeat frame_step. Qed.

Lemma frame_call (u0 udir : R) :
  preserves call_frame (__call__ fft2 ifft2 jn csqrt griddata_cubic u0 udir).
Proof.
  unfold __call__.
  apply preserves_bind; [exact call_frame_trans | apply frame_populate | intros ?].
  apply preserves_bind; [exact call_frame_trans | apply frame_compute_shear | intros ?].
  repeat frame_step.
Qed.

(** Claim C8.  Whether it returns or raises, an invocation leaves the
    arrays [x], [y], [z] of the input grid, the reference grid [xi],
    [yi] and the pivot [x0], [y0] as they were; all it may change are
    the keys [x], [y], [z], [dtaux], [dtauy] of [cgrid] and the keys
    [dtaux], [dtauy] of [igrid]. *)
Theorem call_frame_effect (u0 udir : R) (s : WindShear) :
  let s' := (__call__ fft2 ifft2 jn csqrt griddata_cubic u0 udir s).2 in
  igrid s' !! "x" = igrid s !! "x"
  ∧ igrid s' !! "y" = igrid s !! "y"
  ∧ igrid s' !! "z" = igrid s !! "z"
  ∧ cgrid s' !! "xi" = cgrid s !! "xi"
  ∧ cgrid s' !! "yi" = cgrid s !! "yi"
  ∧ x0 s' = x0 s ∧ y0 s' = y0 s
  ∧ call_frame s s'.
Proof.
  intros s'.
  assert (call_frame s s') as Hf.
  { subst s'. destruct (__call__ _ _ _ _ _ _ _ s) as [r s1] eqn:E. cbn [snd].
    by eapply frame_call. }
  destruct Hf as [Hi Hc ? ? ? ? ? ? ? ?].
  repeat split; try done;
    first [apply Hi; unfold result_key | apply Hc; unfold working_key];
    intros H; repeat (destruct H as [H|H]; try discriminate H); discriminate H.
Qed.
End frame.

(** ** [populate_computational_grid] *)

Section populate.
Context (griddata_cubic : list (R * R) → list R → list (R * R) → list (option R)).

Lemma populate_raises (alpha : R) (s : WindShear) :
  ∃ e s', populate_computational_grid griddata_cubic alpha s = (Raise e, s').
Proof.
  revert s. unfold populate_computational_grid.
  repeat first
    [ apply raises_bind; intros ?
    | match goal with
      | |- ∀ s, ∃ e s', (let '(_, _) := ?p in _) s = _ => destruct p
      end ].
  intros s. by eexists _, _.
Qed.

(** Claim C1, evaluated on the code.  [populate_computational_grid]
    never returns normally; and whenever the rotation and the
    interpolation succeed, it stops with the elevation on the
    computational grid equal to the raw interpolation result [zc]: no
    undefined cell has been filled. *)
Theorem populate_computational_grid_never_fills :
  (∀ (alpha : R) (s : WindShear),
     ∃ e s', populate_computational_grid griddata_cubic alpha s = (Raise e, s'))
  ∧ (∀ (alpha : R) (s : WindShear) xi yi ox oy xc yc gx gy gz zc,
       cgrid s !! "xi" = Some (VArr xi) → cgrid s !! "yi" = Some (VArr yi) →
       x0 s = Some ox → y0 s = Some oy →
       rotate xi yi alpha (ox, oy) = Ok (xc, yc) →
       igrid s !! "x" = Some (VArr gx) → igrid s !! "y" = Some (VArr gy) →
       igrid s !! "z" = Some (VArr gz) →
       interpolate griddata_cubic gx gy gz xc yc = Ok zc →
       ∃ e s', populate_computational_grid griddata_cubic alpha s = (Raise e, s')
         ∧ (e = NameError "x" ∨ e = IndexError)
         ∧ cgrid s' !! "z" = Some (VNan zc)).
Proof.
  split; [apply populate_raises|].
  intros alpha s xi yi ox oy xc yc gx gy gz zc Hxi Hyi Hox Hoy Hrot Hgx Hgy Hgz Hint.
  unfold populate_computational_grid.
  rewrite bind_assoc, (bind_cgrid_get "xi" (VArr xi)) by done. cbn [as_arr]. rewrite bind_ret.
  rewrite bind_assoc, (bind_cgrid_get "yi" (VArr yi)) by done. cbn [as_arr]. rewrite bind_ret.
  rewrite (bind_attr_opt "x0" x0 ox), (bind_attr_opt "y0" y0 oy) by done.
  rewrite (bind_lift_ok _ (xc, yc)) by done.
  rewrite bind_assoc, (bind_igrid_get "x" (VArr gx)) by done. cbn [as_arr]. rewrite bind_ret.
  rewrite bind_assoc, (bind_igrid_get "y" (VArr gy)) by done. cbn [as_arr]. rewrite bind_ret.
  rewrite bind_assoc, (bind_igrid_get "z" (VArr gz)) by done. cbn [as_arr]. rewrite bind_ret.
  rewrite (bind_lift_ok _ zc) by done.
  rewrite !bind_cgrid_set.
  rewrite bind_assoc, (bind_igrid_get "x" (VArr gx)) by done. cbn [as_arr]. rewrite bind_ret.
  destruct (get_borders gx) as [px|e] eqn:Epx.
  2:{ eexists _, _. split; [reflexivity|]. split; [|cbn; by simplify_map_eq].
      right. revert Epx. unfold get_borders, row_slice, col_slice, norm_index.
      repeat case_match; cbn; congruence. }
  rewrite (bind_lift_ok _ px) by done.
  rewrite bind_assoc, (bind_igrid_get "y" (VArr gy)) by done. cbn [as_arr]. rewrite bind_ret.
  destruct (get_borders gy) as [py|e] eqn:Epy.
  2:{ eexists _, _. split; [reflexivity|]. split; [|cbn; by simplify_map_eq].
      right. revert Epy. unfold get_borders, row_slice, col_slice, norm_index.
      repeat case_match; cbn; congruence. }
  rewrite (bind_lift_ok _ py) by done.
  rewrite bind_assoc, (bind_igrid_get "z" (VArr gz)) by done. cbn [as_arr]. rewrite bind_ret.
  destruct (get_borders gz) as [pz|e] eqn:Epz.
  2:{ eexists _, _. split; [reflexivity|]. split; [|cbn; by simplify_map_eq].
      right. revert Epz. unfold get_borders, row_slice, col_slice, norm_index.
      repeat case_match; cbn; congruence. }
  rewrite (bind_lift_ok _ pz) by done.
  rewrite bind_assoc, (bind_cgrid_get "z" (VNan zc)) by (cbn; by simplify_map_eq).
  cbn [as_nan]. rewrite bind_ret.
  eexists _, _. split; [reflexivity|]. split; [by left|]. cbn. by simplify_map_eq.
Qed.
End populate.

Lemma populate_computational_grid_never_fills_witness :
  ∃ e s', populate_computational_grid griddata_outside 0 one_cell = (Raise e, s')
    ∧ cgrid s' !! "z" = Some (VNan (Array (1, 1) [None])).
Proof.
  destruct (populate_computational_grid_never_fills griddata_outside) as [_ H].
  destruct (H 0%R one_cell (Array (1, 1) [5%R]) (Array (1, 1) [5%R]) 0%R 0%R
              _ _ (Array (1, 1) [0%R]) (Array (1, 1) [0%R]) (Array (1, 1) [1%R])
              (Array (1, 1) [None])
              eq_refl eq_refl eq_refl eq_refl
              (rotate_ok (Array (1, 1) [5%R]) (Array (1, 1) [5%R]) 0 (0, 0)%R
                 eq_refl eq_refl eq_refl)
              eq_refl eq_refl eq_refl eq_refl)
    as (e & s' & Hrun & _ & Hz).
  exists e, s'. split; assumption.
Defined.

(** ** Periodicity in the wind direction *)

Lemma full_turn (alpha : R) :
  cos ((alpha + 360) / 180 * PI) = cos (alpha / 180 * PI)
  ∧ sin ((alpha + 360) / 180 * PI) = sin (alpha / 180 * PI).
Proof.
  replace ((alpha + 360) / 180 * PI)%R with (alpha / 180 * PI + 2 * INR 1 * PI)%R
    by (cbn [INR]; field).
  split; [apply cos_period | apply sin_period].
Qed.

Lemma rotate_period (x y : ndarray R) (alpha : R) (origin : R * R) :
  rotate x y (alpha + 360) origin = rotate x y alpha origin.
Proof.
  unfold rotate. destruct (full_turn alpha) as [-> ->]. reflexivity.
Qed.

Section periodic.
Context (fft2 : ndarray (option R) → ndarray C)
        (ifft2 : ndarray C → ndarray C)
        (jn : nat → C → C)
        (csqrt : C → C)
        (griddata_cubic : list (R * R) → list R → list (R * R) → list (option R)).

Lemma populate_period (alpha : R) (s : WindShear) :
  populate_computational_grid griddata_cubic (alpha + 360) s
  = populate_computational_grid griddata_cubic alpha s.
Proof.
  revert s. unfold populate_computational_grid.
  do 4 (apply bind_ext; [done|intros ?]).
  intros s. by rewrite rotate_period.
Qed.

(** Over the reals, an invocation with direction [udir + 360] ends
    with the same outcome and the same instance as one with direction
    [udir]: the angle enters only through the cosine and sine of
    [rotate]. *)
Lemma call_period (u0 udir : R) (s : WindShear) :
  __call__ fft2 ifft2 jn csqrt griddata_cubic u0 (udir + 360) s
  = __call__ fft2 ifft2 jn csqrt griddata_cubic u0 udir s.
Proof.
  revert s. unfold __call__.
  apply bind_ext; [apply populate_period | intros ?].
  do 3 (apply bind_ext; [done|intros ?]).
  intros s'. by rewrite rotate_period.
Qed.
End periodic.

(** * Further properties *)

(** ** [rotate]: composition, inverse, distances *)

Lemma length_zip_same {A B} (l : list A) (k : list B) :
  length l = length k → length (zip l k) = length l.
Proof. intros H. rewrite length_zip. lia. Qed.

Lemma zip_fmap_pair {A B E} (f g : A * B → E) (l : list A) (k : list B) :
  length l = length k →
  zip (f <$> zip l k) (g <$> zip l k) = (λ p, (f p, g p)) <$> zip l k.
Proof.
  revert k. induction l as [|a l IH]; intros [|b k] H; cbn in *; try done.
  f_equal. apply IH. lia.
Qed.

Lemma rotate_size_mismatch (x y : ndarray R) (alpha : R) (origin : R * R) :
  length (data x) ≠ length (data y) → rotate x y alpha origin = Raise ValueError.
Proof.
  intros H. unfold rotate, hconcat, amap. cbn [data].
  rewrite decide_False by (rewrite !length_fmap; done). reflexivity.
Qed.

(** Property X1.
    On arrays [x] and [y], [rotate] returns exactly when the two have
    the same number of cells, whatever the angle and the origin;
    otherwise the two columns cannot be joined and it raises
    [ValueError]. *)
Theorem rotate_needs_equal_sizes (x y : ndarray R) (alpha : R) (origin : R * R) :
  wf x → wf y →
  ((∃ r, rotate x y alpha origin = Ok r) ↔ length (data x) = length (data y))
  ∧ (length (data x) ≠ length (data y) → rotate x y alpha origin = Raise ValueError).
Proof.
  intros Hx Hy. split; [|apply rotate_size_mismatch].
  split.
  - intros [r Hr].
    destruct (decide (length (data x) = length (data y))) as [|Hne]; [done|].
    rewrite rotate_size_mismatch in Hr by done. done.
  - intros Hlen. rewrite rotate_ok by done. by eexists.
Qed.

Lemma rotate_compose_aux (x y xr yr : ndarray R) (a b : R) (origin : R * R) :
  wf x → wf y → length (data x) = length (data y) →
  rotate x y a origin = Ok (xr, yr) →
  rotate xr yr b origin = rotate x y (a + b) origin.
Proof.
  intros Hx Hy Hlen. rewrite rotate_ok by done. intros [= <- <-].
  unfold wf in *.
  rewrite !rotate_ok
    by (unfold wf; cbn [data shape]; rewrite ?length_fmap, ?length_zip_same by done;
        congruence).
  cbn [data shape]. rewrite zip_fmap_pair by done.
  rewrite <- !list_fmap_compose.
  replace ((a + b) / 180 * PI)%R with (a / 180 * PI + b / 180 * PI)%R by lra.
  rewrite cos_plus, sin_plus.
  do 2 f_equal; f_equal; apply list_fmap_ext; intros i [p q] _; cbn; ring.
Qed.

(** Property X2.
    Turning by [a] and then by [b] about one origin is turning by
    [a + b]. *)
Theorem rotate_compose (x y xr yr : ndarray R) (a b : R) (origin : R * R) :
  wf x → wf y → length (data x) = length (data y) →
  rotate x y a origin = Ok (xr, yr) →
  rotate xr yr b origin = rotate x y (a + b) origin.
Proof. apply rotate_compose_aux. Qed.

Lemma rotate_zero (x y : ndarray R) (origin : R * R) :
  wf x → wf y → length (data x) = length (data y) →
  rotate x y 0 origin = Ok (x, y).
Proof.
  intros Hx Hy Hlen. rewrite rotate_ok by done.
  replace (0 / 180 * PI)%R with 0%R by lra. rewrite cos_0, sin_0.
  destruct x as [shx dx], y as [shy dy]. cbn [data shape] in *.
  do 2 f_equal; f_equal.
  - rewrite <- (fst_zip dx dy) at 2 by lia.
    apply list_fmap_ext; intros i [p q] _; cbn; ring.
  - rewrite <- (snd_zip dx dy) at 2 by lia.
    apply list_fmap_ext; intros i [p q] _; cbn; ring.
Qed.

(** Property X3.
    Turning by [alpha] and then by [- alpha] about the same origin gives
    the coordinates back. *)
Theorem rotate_then_back (x y xr yr : ndarray R) (alpha : R) (origin : R * R) :
  wf x → wf y → length (data x) = length (data y) →
  rotate x y alpha origin = Ok (xr, yr) →
  rotate xr yr (- alpha) origin = Ok (x, y).
Proof.
  intros Hx Hy Hlen Hr.
  rewrite (rotate_compose_aux x y xr yr alpha (- alpha) origin) by done.
  replace (alpha + - alpha)%R with 0%R by lra. by apply rotate_zero.
Qed.

(** Property X4.
    [rotate] keeps the distance of every point to the origin of the
    rotation. *)
Theorem rotate_keeps_distance (x y xr yr : ndarray R) (alpha : R) (origin : R * R)
    (k : nat) (px py qx qy : R) :
  wf x → wf y → length (data x) = length (data y) →
  rotate x y alpha origin = Ok (xr, yr) →
  data x !! k = Some px → data y !! k = Some py →
  data xr !! k = Some qx → data yr !! k = Some qy →
  ((qx - origin.1) ^ 2 + (qy - origin.2) ^ 2
   = (px - origin.1) ^ 2 + (py - origin.2) ^ 2)%R.
Proof.
  intros Hx Hy Hlen. rewrite rotate_ok by done. intros [= <- <-] Hpx Hpy.
  cbn [data]. rewrite !list_lookup_fmap, (lookup_zip_Some _ _ _ _ _ Hpx Hpy). cbn.
  intros [= <-] [= <-].
  pose proof (sin2_cos2 (alpha / 180 * PI)) as H. unfold Rsqr in H.
  generalize dependent (cos (alpha / 180 * PI)). intros c.
  generalize (sin (alpha / 180 * PI)). intros s Hcs.
  generalize (px - origin.1)%R (py - origin.2)%R. intros u v.
  transitivity ((u * u + v * v) * (s * s + c * c))%R; [ring | rewrite Hcs; ring].
Qed.

(** ** [get_borders]: empty arrays, length, ring *)

Lemma norm_index_empty (i : Z) : norm_index i 0 = Raise IndexError.
Proof.
  unfold norm_index.
  repeat match goal with
         | |- context [(?a <? ?b)%Z] => destruct (Z.ltb_spec a b)
         | |- context [(?a <=? ?b)%Z] => destruct (Z.leb_spec a b)
         end; cbn; try reflexivity; lia.
Qed.

Lemma Ok_inj {A} (a b : A) : Ok a = Ok b → a = b.
Proof. by intros [= ->]. Qed.

Lemma norm_index_raise (i : Z) (n : nat) (e : exn) :
  norm_index i n = Raise e → e = IndexError.
Proof. unfold norm_index. case_match; congruence. Qed.

Lemma get_borders_no_cells {A} (x : ndarray A) :
  (shape x).1 = 0 ∨ (shape x).2 = 0 → get_borders x = Raise IndexError.
Proof.
  intros [H|H]; unfold get_borders, row_slice, col_slice; rewrite H.
  - rewrite norm_index_empty. reflexivity.
  - destruct (norm_index 0 (shape x).1) as [j|e] eqn:E.
    + cbn [mbind result_bind]. rewrite norm_index_empty. reflexivity.
    + apply norm_index_raise in E as ->. reflexivity.
Qed.

(** Property X5.
    [get_borders] returns exactly when the array has at least one row
    and one column; without cells it raises [IndexError]. *)
Theorem get_borders_needs_cells {A} (x : ndarray A) :
  ((∃ b, get_borders x = Ok b) ↔ 0 < (shape x).1 ∧ 0 < (shape x).2)
  ∧ ((shape x).1 = 0 ∨ (shape x).2 = 0 → get_borders x = Raise IndexError).
Proof.
  split; [|apply get_borders_no_cells].
  split.
  - intros [b Hb].
    destruct (decide ((shape x).1 = 0)) as [H1|H1];
      [rewrite get_borders_no_cells in Hb by auto; done|].
    destruct (decide ((shape x).2 = 0)) as [H2|H2];
      [rewrite get_borders_no_cells in Hb by auto; done|].
    lia.
  - intros [H1 H2]. destruct (shape x) as [ny nx] eqn:Hsh. cbn [fst snd] in *.
    rewrite (get_borders_pieces x ny nx) by done. by eexists.
Qed.

(** Property X6.
    Whenever [get_borders] returns, on an array of [ny] rows and [nx]
    columns, the border has [2 nx + 2 (ny - 2) + 1] values ([2 nx + 1]
    for a single row). *)
Theorem get_borders_length {A} (x : ndarray A) (ny nx : nat) (b : list A) :
  wf x → shape x = (ny, nx) → get_borders x = Ok b →
  length b = 2 * nx + 2 * (ny - 2) + 1.
Proof.
  intros Hwf Hsh Hb.
  assert (0 < ny ∧ 0 < nx) as [Hy Hx].
  { destruct (decide (ny = 0)) as [->|];
      [rewrite get_borders_no_cells in Hb by (rewrite Hsh; auto); done|].
    destruct (decide (nx = 0)) as [->|];
      [rewrite get_borders_no_cells in Hb by (rewrite Hsh; auto); done|].
    lia. }
  pose proof (get_borders_pieces x ny nx Hsh Hy Hx) as Hp. rewrite Hb in Hp.
  apply (f_equal (λ r, match r with Ok l => length l | Raise _ => 0 end)) in Hp.
  rewrite Hp. clear Hp Hb.
  assert (∀ j i, j < ny → i < nx → is_Some (at2 x j i)) as Hcell
    by (intros; by eapply at2_is_Some).
  rewrite !length_app.
  rewrite (omap_total_length (at2 x 0) (seq 0 nx))
    by (apply Forall_seq; intros; apply Hcell; lia).
  rewrite (omap_total_length (λ j, at2 x j (nx - 1)))
    by (apply Forall_seq; intros; apply Hcell; lia).
  rewrite (omap_total_length (at2 x (ny - 1)))
    by (apply Forall_reverse, Forall_seq; intros; apply Hcell; lia).
  rewrite (omap_total_length (λ j, at2 x j 0))
    by (apply Forall_reverse, Forall_seq; intros; apply Hcell; lia).
  rewrite (omap_total_length (at2 x 0) [0])
    by (repeat constructor; apply Hcell; lia).
  rewrite !length_reverse, !length_seq. cbn [length]. lia.
Qed.

(** Property X7.
    Every value of the border is a cell of the first or last row or of
    the first or last column: no interior cell is ever returned. *)
Theorem get_borders_outer_ring {A} (x : ndarray A) (ny nx : nat) (b : list A) (v : A) :
  shape x = (ny, nx) → get_borders x = Ok b → v ∈ b →
  ∃ j i, at2 x j i = Some v ∧ j < ny ∧ i < nx
         ∧ (j = 0 ∨ j = ny - 1 ∨ i = 0 ∨ i = nx - 1).
Proof.
  intros Hsh Hb Hv.
  assert (0 < ny ∧ 0 < nx) as [Hy Hx].
  { destruct (decide (ny = 0)) as [->|];
      [rewrite get_borders_no_cells in Hb by (rewrite Hsh; auto); done|].
    destruct (decide (nx = 0)) as [->|];
      [rewrite get_borders_no_cells in Hb by (rewrite Hsh; auto); done|].
    lia. }
  rewrite (get_borders_pieces x ny nx) in Hb by done. apply Ok_inj in Hb as <-.
  rewrite !elem_of_app in Hv.
  destruct Hv as [Hv|[Hv|[Hv|[Hv|Hv]]]];
    apply list_elem_of_omap in Hv as (n & Hn & Hat);
    rewrite ?elem_of_reverse in Hn;
    try (apply elem_of_seq in Hn).
  - exists 0, n. repeat split; [done|lia..|auto].
  - exists n, (nx - 1). repeat split; [done|lia..|auto].
  - exists (ny - 1), n. repeat split; [done|lia..|auto].
  - exists n, 0. repeat split; [done|lia..|auto].
  - apply list_elem_of_singleton in Hn as ->.
    exists 0, 0. repeat split; [done|lia..|auto].
Qed.

Lemma omap_amap {A B} (f : A → B) (x : ndarray A) (sel : nat → nat * nat)
    (l : list nat) :
  omap (λ n, at2 (amap f x) (sel n).1 (sel n).2) l
  = f <$> omap (λ n, at2 x (sel n).1 (sel n).2) l.
Proof.
  induction l as [|n l IH]; [done|]. cbn [omap list_omap].
  unfold at2 at 1. cbn [amap data shape]. rewrite list_lookup_fmap.
  fold (at2 x (sel n).1 (sel n).2).
  destruct (at2 x (sel n).1 (sel n).2); cbn; by rewrite IH.
Qed.

(** Property X8.
    [get_borders] commutes with a cell-by-cell map, so the borders of
    arrays of one shape ([x], [y] and [z] of the input grid) list the
    same cells in the same order. *)
Theorem get_borders_amap {A B} (f : A → B) (x : ndarray A) :
  get_borders (amap f x)
  = match get_borders x with
    | Ok b => Ok (f <$> b)
    | Raise e => Raise e
    end.
Proof.
  unfold get_borders, row_slice, col_slice.
  change (shape (amap f x)) with (shape x).
  destruct (norm_index 0 (shape x).1) as [r0|]; [|done].
  destruct (norm_index (-1) (shape x).2) as [cl|]; [|done].
  destruct (norm_index (-1) (shape x).1) as [rl|]; [|done].
  destruct (norm_index 0 (shape x).2) as [c0|]; [|done].
  cbn [mbind result_bind].
  rewrite !fmap_app.
  rewrite <- !(omap_amap f x (λ n, (r0, n))), <- (omap_amap f x (λ n, (n, cl))),
    <- (omap_amap f x (λ n, (rl, n))), <- (omap_amap f x (λ n, (n, c0))).
  reflexivity.
Qed.

(** ** [get_sigmoid]: range and symmetry *)

(** Property X9.
    Whatever the buffer width, the nonzero relaxation and the distance,
    the weight lies strictly between 0 and 1. *)
Theorem get_sigmoid_range (self : WindShear) (d : R) :
  buffer_relaxation self ≠ 0%R →
  (0 < get_sigmoid self d < 1)%R.
Proof.
  intros _. split; [apply sigmoid_pos|].
  unfold get_sigmoid.
  pose proof (exp_pos (- (buffer_width self - d) / buffer_relaxation self)) as He.
  apply (Rmult_lt_reg_r (1 + exp (- (buffer_width self - d) / buffer_relaxation self)));
    [lra|].
  unfold Rdiv at 1. rewrite Rmult_assoc, Rinv_l by lra. lra.
Qed.

(** Property X10.
    The weight is point-symmetric about [d = buffer_width]: the weights
    at [buffer_width + t] and [buffer_width - t] add up to 1. *)
Theorem get_sigmoid_symmetry (self : WindShear) (t : R) :
  buffer_relaxation self ≠ 0%R →
  (get_sigmoid self (buffer_width self + t)
   + get_sigmoid self (buffer_width self - t) = 1)%R.
Proof.
  intros _. unfold get_sigmoid.
  replace (- (buffer_width self - (buffer_width self + t)) / buffer_relaxation self)%R
    with (t / buffer_relaxation self)%R by (unfold Rdiv; ring).
  replace (- (buffer_width self - (buffer_width self - t)) / buffer_relaxation self)%R
    with (- (t / buffer_relaxation self))%R by (unfold Rdiv; ring).
  rewrite exp_Ropp.
  pose proof (exp_pos (t / buffer_relaxation self)) as He.
  field. split; lra.
Qed.

(** ** [get_exact_grid] *)

(** Property X11.
    A zero spacing in either direction makes [get_exact_grid] raise:
    [ZeroDivisionError] when the quotient of a bound and the spacing is
    a division of Python floats, [ValueError] when numpy divides, as it
    does for the bounds the constructor passes. *)
Theorem get_exact_grid_zero_spacing (fl : rounding) (kind : scalar)
    (xmin xmax ymin ymax dx dy : R) :
  dx = 0%R ∨ dy = 0%R →
  get_exact_grid fl kind xmin xmax ymin ymax dx dy
  = Raise (match kind with
           | PyFloat => ZeroDivisionError
           | NpFloat => ValueError
           end).
Proof.
  intros H. unfold get_exact_grid, grid_axis.
  destruct (decide (dx = 0%R)) as [|Hdx]; [destruct kind; reflexivity|].
  destruct H as [?| ->]; [done|].
  unfold arange. destruct (decide (dx = 0%R)); [done|]. cbn [mbind result_bind].
  destruct (decide (0 = 0)%R); [destruct kind; reflexivity | done].
Qed.

(** ** [interpolate] *)

Section interpolate.
Context (griddata_cubic : list (R * R) → list R → list (R * R) → list (option R)).

(** Property X14.
    Whenever [interpolate] returns, its result is well formed and has
    the shape of the destination [xi], and the sizes of its arguments
    agree. *)
Theorem interpolate_result_shape (x y z xi yi : ndarray R) (r : ndarray (option R)) :
  interpolate griddata_cubic x y z xi yi = Ok r →
  shape r = shape xi ∧ wf r
  ∧ length (data x) = length (data y)
  ∧ length (data x) = length (data z)
  ∧ length (data xi) = length (data yi).
Proof.
  unfold interpolate, hconcat, reshape.
  destruct (decide (length (data x) = length (data y))) as [Hxy|]; [|done].
  destruct (decide (length (data xi) = length (data yi))) as [Hi|]; [|done].
  cbn [mbind result_bind].
  destruct (decide (length (zip (data x) (data y)) = length (data z))) as [Hz|]; [|done].
  destruct (decide _) as [Hr|]; [|done].
  intros [= <-]. rewrite length_zip in Hz. unfold wf. cbn [shape data].
  repeat split; try done; lia.
Qed.

(** Property X15.
    [interpolate] raises [ValueError] when the source coordinates, the
    source values or the destination coordinates disagree in size. *)
Theorem interpolate_size_mismatch (x y z xi yi : ndarray R) :
  length (data x) ≠ length (data y)
  ∨ length (data x) ≠ length (data z)
  ∨ length (data xi) ≠ length (data yi) →
  interpolate griddata_cubic x y z xi yi = Raise ValueError.
Proof.
  intros H. unfold interpolate, hconcat, reshape.
  destruct (decide (length (data x) = length (data y))) as [Hxy|]; [|done].
  destruct (decide (length (data xi) = length (data yi))) as [Hi|]; [|done].
  cbn [mbind result_bind].
  destruct (decide (length (zip (data x) (data y)) = length (data z))) as [Hz|]; [|done].
  rewrite length_zip in Hz. exfalso. destruct H as [H|[H|H]]; [done| lia |done].
Qed.

(** Property X16.
    With an interpolation kernel that returns one value per query point,
    [interpolate] returns on every input whose sizes agree. *)
Theorem interpolate_succeeds (x y z xi yi : ndarray R) :
  (∀ pts vals q, length (griddata_cubic pts vals q) = length q) →
  wf xi →
  length (data x) = length (data y) →
  length (data x) = length (data z) →
  length (data xi) = length (data yi) →
  ∃ r, interpolate griddata_cubic x y z xi yi = Ok r ∧ shape r = shape xi ∧ wf r.
Proof.
  intros Hgd Hwf Hxy Hxz Hi. unfold interpolate, hconcat, reshape.
  rewrite !decide_True; try done.
  - cbn [mbind result_bind].
    rewrite !decide_True.
    + eexists. split; [done|]. split; [done|]. unfold wf. cbn [shape data].
      rewrite Hgd, length_zip. unfold wf in Hwf. lia.
    + rewrite Hgd, length_zip. unfold wf in Hwf. lia.
    + rewrite length_zip. lia.
Qed.
End interpolate.

(** ** [compute_shear]: effect and repetition *)

Section compute_shear_more.
Context (fft2 : ndarray (option R) → ndarray C)
        (ifft2 : ndarray C → ndarray C)
        (jn : nat → C → C)
        (csqrt : C → C).

Lemma compute_shear_outcome (u0 : R) (s : WindShear) :
  (∃ e, compute_shear fft2 ifft2 jn csqrt u0 s = (Raise e, s))
  ∨ (∃ dtaux dtauy,
       compute_shear fft2 ifft2 jn csqrt u0 s = (Ok (), with_shear s dtaux dtauy)).
Proof.
  unfold compute_shear. destruct (decide (u0 = 0%R)) as [Hu|Hu].
  - destruct (cgrid s !! "z") as [v|] eqn:Hz.
    2:{ left. eexists. by rewrite bind_assoc, bind_cgrid_get_missing. }
    rewrite bind_assoc, (bind_cgrid_get "z" v) by done.
    destruct v as [r|a|z]; try (left; by eexists).
    cbn [as_nan]. rewrite bind_ret, bind_cgrid_set.
    rewrite bind_assoc, (bind_cgrid_get "z" (VNan z))
      by (cbn [cgrid]; rewrite lookup_insert_ne; done).
    cbn [as_nan]. rewrite bind_ret. right. by eexists _, _.
  - destruct (cgrid s !! "z") as [v|] eqn:Hz.
    2:{ left. eexists. by rewrite bind_assoc, bind_cgrid_get_missing. }
    rewrite bind_assoc, (bind_cgrid_get "z" v) by done.
    destruct v as [r|a|z]; try (left; by eexists).
    cbn [as_nan]. rewrite bind_ret. destruct (shape z) as [ny nx].
    destruct (cgrid s !! "dx") as [v|] eqn:Hdx.
    2:{ left. eexists. by rewrite bind_assoc, bind_cgrid_get_missing. }
    rewrite bind_assoc, (bind_cgrid_get "dx" v) by done.
    destruct v as [dx|a|a]; try (left; by eexists).
    cbn [as_float]. rewrite bind_ret.
    destruct (nonzero_divisor (dx * INR nx)) as [[]|e] eqn:Ex;
      [|left; eexists; by rewrite (bind_lift_raise _ e)].
    rewrite (bind_lift_ok _ ()) by done.
    destruct (cgrid s !! "dy") as [v|] eqn:Hdy.
    2:{ left. eexists. by rewrite bind_assoc, bind_cgrid_get_missing. }
    rewrite bind_assoc, (bind_cgrid_get "dy" v) by done.
    destruct v as [dy|a|a]; try (left; by eexists).
    cbn [as_float]. rewrite bind_ret.
    destruct (nonzero_divisor (dy * INR ny)) as [[]|e] eqn:Ey;
      [|left; eexists; by rewrite (bind_lift_raise _ e)].
    rewrite (bind_lift_ok _ ()) by done.
    destruct (meshgrid _ _) as [kx ky].
    rewrite bind_assoc, (bind_cgrid_get "z" (VNan z)) by done.
    cbn [as_nan]. rewrite bind_ret.
    rewrite bind_attr.
    destruct (nonzero_divisor (z0 s)) as [[]|e] eqn:Ez;
      [|left; eexists; by rewrite (bind_lift_raise _ e)].
    rewrite (bind_lift_ok _ ()) by done.
    right. by eexists _, _.
Qed.


Lemma compute_shear_run (u0 : R) (s : WindShear) (z : ndarray (option R)) (dx dy : R) :
  cgrid s !! "z" = Some (VNan z) →
  (u0 ≠ 0%R → spectral_ready s z dx dy) →
  compute_shear fft2 ifft2 jn csqrt u0 s
  = (Ok (), with_shear s (shear_fields fft2 ifft2 jn csqrt s u0 z dx dy).1
                         (shear_fields fft2 ifft2 jn csqrt s u0 z dx dy).2).
Proof.
  intros Hz Hd. unfold compute_shear, shear_fields.
  destruct (decide (u0 = 0%R)) as [Hu|Hu].
  - rewrite bind_assoc, (bind_cgrid_get "z" (VNan z)) by done.
    cbn [as_nan]. rewrite bind_ret, bind_cgrid_set.
    rewrite bind_assoc, (bind_cgrid_get "z" (VNan z))
      by (cbn [cgrid]; rewrite lookup_insert_ne; done).
    cbn [as_nan]. rewrite bind_ret. reflexivity.
  - destruct (Hd Hu) as (Hdx & Hdy & Hqx & Hqy & Hz0).
    rewrite bind_assoc, (bind_cgrid_get "z" (VNan z)) by done.
    cbn [as_nan]. rewrite bind_ret. destruct (shape z) as [ny nx]. cbn [fst snd] in *.
    rewrite bind_assoc, (bind_cgrid_get "dx" (VFloat dx)) by done.
    cbn [as_float]. rewrite bind_ret.
    rewrite (bind_lift_ok _ ()) by (by apply nonzero_divisor_ok).
    rewrite bind_assoc, (bind_cgrid_get "dy" (VFloat dy)) by done.
    cbn [as_float]. rewrite bind_ret.
    rewrite (bind_lift_ok _ ()) by (by apply nonzero_divisor_ok).
    destruct (meshgrid _ _) as [kx ky].
    rewrite bind_assoc, (bind_cgrid_get "z" (VNan z)) by done.
    cbn [as_nan]. rewrite bind_ret.
    rewrite bind_attr.
    rewrite (bind_lift_ok _ ()) by (by apply nonzero_divisor_ok).
    reflexivity.
Qed.

Lemma nonzero_divisor_inv (d : R) : nonzero_divisor d = Ok () → d ≠ 0%R.
Proof. unfold nonzero_divisor. by destruct (decide (d = 0%R)). Qed.

Lemma compute_shear_ok_inv (u0 : R) (s s1 : WindShear) :
  compute_shear fft2 ifft2 jn csqrt u0 s = (Ok (), s1) →
  ∃ z dx dy, cgrid s !! "z" = Some (VNan z) ∧ (u0 ≠ 0%R → spectral_ready s z dx dy).
Proof.
  unfold compute_shear. destruct (decide (u0 = 0%R)) as [Hu|Hu].
  - destruct (cgrid s !! "z") as [v|] eqn:Hz.
    2:{ by rewrite bind_assoc, bind_cgrid_get_missing. }
    rewrite bind_assoc, (bind_cgrid_get "z" v) by done.
    destruct v as [r|a|z]; try done.
    intros _. exists z, 0%R, 0%R. split; [reflexivity|]. intros Hn. by destruct Hn.
  - destruct (cgrid s !! "z") as [v|] eqn:Hz.
    2:{ by rewrite bind_assoc, bind_cgrid_get_missing. }
    rewrite bind_assoc, (bind_cgrid_get "z" v) by done.
    destruct v as [r|a|z]; try done.
    cbn [as_nan]. rewrite bind_ret.
    destruct (shape z) as [ny nx] eqn:Hsh.
    destruct (cgrid s !! "dx") as [v|] eqn:Hdx.
    2:{ by rewrite bind_assoc, bind_cgrid_get_missing. }
    rewrite bind_assoc, (bind_cgrid_get "dx" v) by done.
    destruct v as [dx|a|a]; try done.
    cbn [as_float]. rewrite bind_ret.
    destruct (nonzero_divisor (dx * INR nx)) as [[]|e] eqn:Ex;
      [|by rewrite (bind_lift_raise _ e)].
    rewrite (bind_lift_ok _ ()) by done.
    destruct (cgrid s !! "dy") as [v|] eqn:Hdy.
    2:{ by rewrite bind_assoc, bind_cgrid_get_missing. }
    rewrite bind_assoc, (bind_cgrid_get "dy" v) by done.
    destruct v as [dy|a|a]; try done.
    cbn [as_float]. rewrite bind_ret.
    destruct (nonzero_divisor (dy * INR ny)) as [[]|e] eqn:Ey;
      [|by rewrite (bind_lift_raise _ e)].
    rewrite (bind_lift_ok _ ()) by done.
    destruct (meshgrid _ _) as [kx ky].
    rewrite bind_assoc, (bind_cgrid_get "z" (VNan z)) by done.
    cbn [as_nan]. rewrite bind_ret.
    rewrite bind_attr.
    destruct (nonzero_divisor (z0 s)) as [[]|e] eqn:Ez;
      [|by rewrite (bind_lift_raise _ e)].
    intros _. exists z, dx, dy. split; [done|]. intros _.
    unfold spectral_ready. rewrite Hsh. cbn [fst snd].
    repeat split; try done; by apply nonzero_divisor_inv.
Qed.

Lemma with_shear_twice (s : WindShear) (a b tx ty : ndarray R) :
  with_shear (with_shear s a b) tx ty = with_shear s tx ty.
Proof.
  unfold with_shear. cbn. f_equal.
  apply map_eq. intros k.
  destruct (decide (k = "dtauy")) as [->|H1]; [by rewrite !lookup_insert_eq|].
  rewrite !(lookup_insert_ne _ "dtauy") by done.
  destruct (decide (k = "dtaux")) as [->|H2]; [by rewrite !lookup_insert_eq|].
  repeat (rewrite lookup_insert_ne by done). done.
Qed.

(** Property X17.
    [compute_shear] keeps no history: its result does not depend on
    the perturbation fields already stored, and running it again on its
    own result changes nothing. *)
Theorem compute_shear_overwrites (u0 : R) (s s1 : WindShear) (a b : ndarray R) :
  compute_shear fft2 ifft2 jn csqrt u0 s = (Ok (), s1) →
  compute_shear fft2 ifft2 jn csqrt u0 (with_shear s a b) = (Ok (), s1)
  ∧ compute_shear fft2 ifft2 jn csqrt u0 s1 = (Ok (), s1).
Proof.
  intros Hrun.
  destruct (compute_shear_ok_inv u0 s s1 Hrun) as (z & dx & dy & Hz & Hd).
  rewrite (compute_shear_run u0 s z dx dy Hz Hd) in Hrun. injection Hrun as <-.
  assert (∀ a b, compute_shear fft2 ifft2 jn csqrt u0 (with_shear s a b)
                 = (Ok (), with_shear s (shear_fields fft2 ifft2 jn csqrt s u0 z dx dy).1
                                        (shear_fields fft2 ifft2 jn csqrt s u0 z dx dy).2))
    as Hgen.
  { intros a' b'. rewrite (compute_shear_run u0 (with_shear s a' b') z dx dy).
    - rewrite with_shear_twice. reflexivity.
    - cbn. by rewrite !lookup_insert_ne.
    - intros Hu. destruct (Hd Hu) as (? & ? & ? & ? & ?).
      repeat split; try done; cbn; by rewrite !lookup_insert_ne. }
  split; apply Hgen.
Qed.

(** Property X18.
    [compute_shear] never touches [igrid] nor any key of [cgrid] other
    than [dtaux] and [dtauy]; when it raises the instance is exactly as
    before, and when it returns both fields are present. *)
Theorem compute_shear_effect (u0 : R) (s s' : WindShear) (r : result ()) :
  compute_shear fft2 ifft2 jn csqrt u0 s = (r, s') →
  igrid s' = igrid s
  ∧ (∀ k, k ≠ "dtaux" → k ≠ "dtauy" → cgrid s' !! k = cgrid s !! k)
  ∧ (∀ e, r = Raise e → s' = s)
  ∧ (r = Ok () → ∃ dtaux dtauy,
       cgrid s' !! "dtaux" = Some (VArr dtaux) ∧ cgrid s' !! "dtauy" = Some (VArr dtauy)).
Proof.
  intros Hrun.
  destruct (compute_shear_outcome u0 s) as [[e He]|(tx & ty & Hok)];
    rewrite Hrun in *.
  - injection He as -> ->. repeat split; done.
  - injection Hok as -> ->. unfold with_shear. cbn.
    split; [done|]. split; [intros k ? ?; by rewrite !lookup_insert_ne|].
    split; [done|]. intros _. exists tx, ty.
    split; [by rewrite lookup_insert_ne, lookup_insert_eq | by rewrite lookup_insert_eq].
Qed.
End compute_shear_more.

(** ** The wavenumber axis *)

Lemma wavenumber_scale (n : nat) (dx : R) :
  dx ≠ 0%R → 0 < n →
  (1 / (INR (n + 1) * (2 * PI / (dx * INR n))) = dx * INR n / (2 * PI * INR (n + 1)))%R.
Proof.
  intros Hdx Hn.
  assert (INR n ≠ 0)%R by (apply not_0_INR; lia).
  assert (INR (n + 1) ≠ 0)%R by (apply not_0_INR; lia).
  pose proof PI_RGT_0. field. repeat split; lra.
Qed.

(** Property X19.
    The wavenumber axis of [n] cells has [n] entries; entry [i] is the
    integer [i + 1] (for [i + 1 <= n / 2]) or [i - n] (after that) times
    [dx n / (2 pi (n + 1))]. *)
Theorem wavenumbers_closed_form (n : nat) (dx : R) :
  dx ≠ 0%R → 0 < n →
  length (wavenumbers n dx) = n
  ∧ ∀ i, i < n →
      wavenumbers n dx !! i
      = Some (IZR (if decide (i + 1 ≤ n / 2) then Z.of_nat i + 1 else Z.of_nat i - Z.of_nat n)
              * (dx * INR n / (2 * PI * INR (n + 1))))%R.
Proof.
  intros Hdx _. split; [apply length_wavenumbers|].
  intros i Hi. rewrite wavenumbers_lookup by done.
  rewrite wavenumber_scale by (done || lia).
  do 3 f_equal. unfold freq_index.
  replace ((n + 1 - 1) / 2) with (n / 2) by (f_equal; lia).
  repeat case_decide; lia.
Qed.

(** Property X20.
    No wavenumber occurs twice on an axis. *)
Theorem wavenumbers_NoDup (n : nat) (dx : R) :
  dx ≠ 0%R → 0 < n → NoDup (wavenumbers n dx).
Proof.
  intros Hdx _. apply NoDup_alt. intros i j v Hi Hj.
  assert (i < n) as Li by (rewrite <- (length_wavenumbers n dx); by eapply lookup_lt_Some).
  assert (j < n) as Lj by (rewrite <- (length_wavenumbers n dx); by eapply lookup_lt_Some).
  rewrite wavenumbers_lookup in Hi, Hj by done.
  rewrite <- Hj in Hi. injection Hi as Hi.
  apply Rmult_eq_reg_r in Hi.
  - apply eq_IZR in Hi. unfold freq_index in Hi. repeat case_decide; lia.
  - rewrite wavenumber_scale by (done || lia).
    assert (INR n ≠ 0)%R by (apply not_0_INR; lia).
    assert (INR (n + 1) ≠ 0)%R by (apply not_0_INR; lia).
    pose proof PI_RGT_0.
    unfold Rdiv. apply Rmult_integral_contrapositive_currified.
    + by apply Rmult_integral_contrapositive_currified.
    + apply Rinv_neq_0_compat. apply Rmult_integral_contrapositive_currified; lra.
Qed.

(** ** The constructor *)

Lemma foldr_Rmin_le (v : R) (vs : list R) :
  (foldr Rmin v vs <= v)%R ∧ Forall (λ e, foldr Rmin v vs <= e)%R vs.
Proof.
  induction vs as [|w vs [IH1 IH2]]; cbn [foldr]; [split; [lra | constructor]|].
  pose proof (Rmin_l w (foldr Rmin v vs)). pose proof (Rmin_r w (foldr Rmin v vs)).
  split; [lra|]. constructor; [done|].
  eapply Forall_impl; [exact IH2|]. cbn. intros; lra.
Qed.

Lemma foldr_Rmax_ge (v : R) (vs : list R) :
  (v <= foldr Rmax v vs)%R ∧ Forall (λ e, e <= foldr Rmax v vs)%R vs.
Proof.
  induction vs as [|w vs [IH1 IH2]]; cbn [foldr]; [split; [lra | constructor]|].
  pose proof (Rmax_l w (foldr Rmax v vs)). pose proof (Rmax_r w (foldr Rmax v vs)).
  split; [lra|]. constructor; [done|].
  eapply Forall_impl; [exact IH2|]. cbn. intros; lra.
Qed.

Lemma sum_bounds (lo hi : R) (l : list R) :
  Forall (λ e, lo <= e <= hi)%R l →
  (INR (length l) * lo <= foldr Rplus 0 l <= INR (length l) * hi)%R.
Proof.
  induction 1 as [|e l He _ IH]; [cbn; lra|].
  change (length (e :: l)) with (S (length l)). rewrite S_INR. cbn [foldr]. lra.
Qed.

Lemma mean_between (a : ndarray R) (lo hi : R) :
  amin a = Ok lo → amax a = Ok hi → (lo <= mean a <= hi)%R.
Proof.
  unfold amin, amax, mean, size. destruct (data a) as [|v vs] eqn:E; [done|].
  intros [= <-] [= <-].
  destruct (foldr_Rmin_le v vs) as [Hm1 Hm2]. destruct (foldr_Rmax_ge v vs) as [HM1 HM2].
  assert (Forall (λ e, foldr Rmin v vs <= e <= foldr Rmax v vs)%R (v :: vs)) as Hall.
  { constructor; [lra|]. apply Forall_and. split.
    - done.
    - done. }
  apply sum_bounds in Hall.
  assert (0 < INR (length (v :: vs)))%R as Hn by (apply lt_0_INR; cbn; lia).
  split.
  - apply (Rmult_le_reg_l (INR (length (v :: vs)))); [done|].
    unfold Rdiv. rewrite (Rmult_comm (foldr _ _ _)), <- Rmult_assoc, Rinv_r by lra. lra.
  - apply (Rmult_le_reg_l (INR (length (v :: vs)))); [done|].
    unfold Rdiv. rewrite (Rmult_comm (foldr _ _ _)), <- Rmult_assoc, Rinv_r by lra. lra.
Qed.

(** The instance the constructor returns, in full. *)
Lemma init_state (fl : rounding) (x y z : ndarray R) (dx dy bw : R)
    (br : option R) (L z0 l : R) :
  data x ≠ [] → data y ≠ [] → dx ≠ 0%R → dy ≠ 0%R →
  ∃ xlo xhi ylo yhi gx gy,
    amin x = Ok xlo ∧ amax x = Ok xhi ∧ amin y = Ok ylo ∧ amax y = Ok yhi
    ∧ let d := (sqrt ((xhi - xlo) ^ 2 + (yhi - ylo) ^ 2) + 2 * bw)%R in
      get_exact_grid fl NpFloat (mean x - d / 2) (mean x + d / 2)
                     (mean y - d / 2) (mean y + d / 2) dx dy = Ok (gx, gy)
      ∧ __init__ fl x y z dx dy bw br L z0 l
        = Ok (Self (<["z" := VArr z]> (<["y" := VArr y]> (<["x" := VArr x]> ∅)))
                   (<["yi" := VArr gy]>
                      (<["xi" := VArr gx]>
                         (<["dy" := VFloat dy]> (<["dx" := VFloat dx]> ∅))))
                   bw
                   (match br with
                    | None => bw / 4
                    | Some r => r
                    end)%R
                   L z0 l (Some d) (Some (mean x)) (Some (mean y))).
Proof.
  intros Hx Hy Hdx Hdy.
  unfold __init__, set_computational_grid.
  rewrite bind_assoc, (bind_igrid_get "x" (VArr x)) by (cbn; by simplify_map_eq).
  cbn [as_arr]. rewrite bind_ret.
  rewrite bind_assoc, (bind_igrid_get "y" (VArr y)) by (cbn; by simplify_map_eq).
  cbn [as_arr]. rewrite bind_ret.
  destruct (amax x) as [xhi|] eqn:Exhi; [|unfold amax in Exhi; by destruct (data x)].
  destruct (amin x) as [xlo|] eqn:Exlo; [|unfold amin in Exlo; by destruct (data x)].
  destruct (amax y) as [yhi|] eqn:Eyhi; [|unfold amax in Eyhi; by destruct (data y)].
  destruct (amin y) as [ylo|] eqn:Eylo; [|unfold amin in Eylo; by destruct (data y)].
  exists xlo, xhi, ylo, yhi.
  rewrite !(bind_lift_ok _ _ _ _ eq_refl).
  unfold attr at 1. unfold mbind at 1, M_bind at 1.
  unfold set_D at 1. unfold mbind at 1, M_bind at 1.
  erewrite (bind_attr_opt "D" D); [|reflexivity].
  rewrite bind_assoc, (bind_cgrid_get "dx" (VFloat dx)) by (cbn; by simplify_map_eq).
  cbn [as_float]. rewrite bind_ret.
  rewrite bind_assoc, (bind_cgrid_get "dy" (VFloat dy)) by (cbn; by simplify_map_eq).
  cbn [as_float]. rewrite bind_ret.
  cbn [buffer_width].
  destruct (get_exact_grid fl NpFloat _ _ _ _ dx dy) as [[gx gy]|e] eqn:Eg.
  2:{ exfalso. revert Eg. unfold get_exact_grid, grid_axis, arange.
      rewrite !decide_False by done. done. }
  exists gx, gy. do 4 (split; [done|]). cbv zeta. split; [done|].
  rewrite (bind_lift_ok _ (gx, gy)) by done. reflexivity.
Qed.

Lemma init_failure (fl : rounding) (x y z : ndarray R) (dx dy bw : R)
    (br : option R) (L z0 l : R) :
  data x = [] ∨ data y = [] ∨ dx = 0%R ∨ dy = 0%R →
  __init__ fl x y z dx dy bw br L z0 l = Raise ValueError.
Proof.
  intros H.
  unfold __init__, set_computational_grid.
  rewrite bind_assoc, (bind_igrid_get "x" (VArr x)) by (cbn; by simplify_map_eq).
  cbn [as_arr]. rewrite bind_ret.
  rewrite bind_assoc, (bind_igrid_get "y" (VArr y)) by (cbn; by simplify_map_eq).
  cbn [as_arr]. rewrite bind_ret.
  unfold amax, amin.
  destruct (data x) as [|vx lx] eqn:Ex; [reflexivity|].
  destruct (data y) as [|vy ly] eqn:Ey; [reflexivity|].
  destruct H as [H|[H|H]]; [done..|].
  rewrite !(bind_lift_ok _ _ _ _ eq_refl).
  unfold attr at 1. unfold mbind at 1, M_bind at 1.
  unfold set_D at 1. unfold mbind at 1, M_bind at 1.
  erewrite (bind_attr_opt "D" D); [|reflexivity].
  rewrite bind_assoc, (bind_cgrid_get "dx" (VFloat dx)) by (cbn; by simplify_map_eq).
  cbn [as_float]. rewrite bind_ret.
  rewrite bind_assoc, (bind_cgrid_get "dy" (VFloat dy)) by (cbn; by simplify_map_eq).
  cbn [as_float]. rewrite bind_ret.
  assert (∀ a b c d, get_exact_grid fl NpFloat a b c d dx dy = Raise ValueError) as Hg.
  { intros. unfold get_exact_grid, grid_axis, arange.
    destruct H as [->| ->].
    - destruct (decide (0 = 0)%R); [reflexivity | done].
    - destruct (decide (dx = 0%R)); [reflexivity|].
      destruct (decide (0 = 0)%R); [reflexivity | done]. }
  by rewrite (bind_lift_raise _ ValueError).
Qed.

(** Property X22.
    The constructor returns an instance exactly when [x] and [y] are
    not empty and both spacings are nonzero; otherwise it raises
    [ValueError]. *)
Theorem init_succeeds_iff (fl : rounding) (x y z : ndarray R) (dx dy bw : R) (br : option R)
    (L z0 l : R) :
  ((∃ s, __init__ fl x y z dx dy bw br L z0 l = Ok s)
   ↔ data x ≠ [] ∧ data y ≠ [] ∧ dx ≠ 0%R ∧ dy ≠ 0%R)
  ∧ ((¬ ∃ s, __init__ fl x y z dx dy bw br L z0 l = Ok s)
     → __init__ fl x y z dx dy bw br L z0 l = Raise ValueError).
Proof.
  assert (data x ≠ [] ∧ data y ≠ [] ∧ dx ≠ 0%R ∧ dy ≠ 0%R
          → ∃ s, __init__ fl x y z dx dy bw br L z0 l = Ok s) as Hok.
  { intros (Hx & Hy & Hdx & Hdy).
    destruct (init_state fl x y z dx dy bw br L z0 l Hx Hy Hdx Hdy)
      as (? & ? & ? & ? & ? & ? & _ & _ & _ & _ & _ & Hs).
    by eexists. }
  assert (¬ (data x ≠ [] ∧ data y ≠ [] ∧ dx ≠ 0%R ∧ dy ≠ 0%R)
          → __init__ fl x y z dx dy bw br L z0 l = Raise ValueError) as Hfail.
  { intros Hn. apply init_failure.
    destruct (data x) as [|? ?]; [by left|].
    destruct (data y) as [|? ?]; [by right; left|].
    destruct (decide (dx = 0%R)); [by right; right; left|].
    destruct (decide (dy = 0%R)); [by right; right; right|].
    exfalso. apply Hn. done. }
  split; [split; [|done]|].
  - intros [s Hs]. 
    destruct (data x) as [|? ?] eqn:Ex;
      [rewrite init_failure in Hs by (left; done); done|].
    destruct (data y) as [|? ?] eqn:Ey;
      [rewrite init_failure in Hs by (right; left; done); done|].
    destruct (decide (dx = 0%R));
      [rewrite init_failure in Hs by (right; right; left; done); done|].
    destruct (decide (dy = 0%R));
      [rewrite init_failure in Hs by (right; right; right; done); done|].
    done.
  - intros Hn. apply Hfail. intros H. apply Hn, Hok, H.
Qed.

Lemma sqrt_ge_side (a b : R) : (0 <= a → a <= sqrt (a ^ 2 + b ^ 2))%R.
Proof.
  intros Ha. rewrite <- (sqrt_pow2 a) at 1 by done.
  apply sqrt_le_1_alt. nra.
Qed.

(** Property X23.
    On a constructed instance the pivot is the mean of the input
    coordinates and lies within their bounding box, and [D] is the
    diagonal of that box plus twice the buffer width, hence at least
    either side of the box plus twice the buffer width. *)
Theorem init_geometry (fl : rounding) (x y z : ndarray R) (dx dy bw : R) (br : option R)
    (L z0 l : R) (s : WindShear) :
  __init__ fl x y z dx dy bw br L z0 l = Ok s →
  ∃ xlo xhi ylo yhi d,
    amin x = Ok xlo ∧ amax x = Ok xhi ∧ amin y = Ok ylo ∧ amax y = Ok yhi
    ∧ x0 s = Some (mean x) ∧ y0 s = Some (mean y) ∧ D s = Some d
    ∧ (xlo <= mean x <= xhi)%R ∧ (ylo <= mean y <= yhi)%R
    ∧ (d = sqrt ((xhi - xlo) ^ 2 + (yhi - ylo) ^ 2) + 2 * bw)%R
    ∧ (xhi - xlo + 2 * bw <= d)%R ∧ (yhi - ylo + 2 * bw <= d)%R.
Proof.
  intros Hs.
  assert (data x ≠ [] ∧ data y ≠ [] ∧ dx ≠ 0%R ∧ dy ≠ 0%R) as (Hx & Hy & Hdx & Hdy).
  { destruct (data x) as [|? ?] eqn:Ex;
      [rewrite init_failure in Hs by (left; done); done|].
    destruct (data y) as [|? ?] eqn:Ey;
      [rewrite init_failure in Hs by (right; left; done); done|].
    destruct (decide (dx = 0%R));
      [rewrite init_failure in Hs by (right; right; left; done); done|].
    destruct (decide (dy = 0%R));
      [rewrite init_failure in Hs by (right; right; right; done); done|].
    done. }
  destruct (init_state fl x y z dx dy bw br L z0 l Hx Hy Hdx Hdy)
    as (xlo & xhi & ylo & yhi & gx & gy & Hxlo & Hxhi & Hylo & Hyhi & _ & Hinit).
  rewrite Hinit in Hs. injection Hs as <-. cbn [x0 y0 D].
  pose proof (mean_between x xlo xhi Hxlo Hxhi) as Hmx.
  pose proof (mean_between y ylo yhi Hylo Hyhi) as Hmy.
  exists xlo, xhi, ylo, yhi. eexists.
  do 7 (split; [done|]). split; [done|]. split; [done|]. split; [reflexivity|].
  split.
  - pose proof (sqrt_ge_side (xhi - xlo) (yhi - ylo) ltac:(lra)) as H.
    cbn [pow] in H |- *. lra.
  - pose proof (sqrt_ge_side (yhi - ylo) (xhi - xlo) ltac:(lra)) as H.
    rewrite (Rplus_comm ((yhi - ylo) ^ 2)) in H. cbn [pow] in H |- *. lra.
Qed.

(** ** Invocations *)

Lemma populate_frame_refl (s : WindShear) : populate_frame s s.
Proof. by constructor. Qed.

Lemma populate_frame_trans (s1 s2 s3 : WindShear) :
  populate_frame s1 s2 → populate_frame s2 s3 → populate_frame s1 s3.
Proof.
  intros [Hi1 Hc1 ? ?] [Hi2 Hc2 ? ?]. constructor; try congruence.
  intros k ? ? ?. rewrite Hc2, Hc1 by done. done.
Qed.

Lemma populate_frame_cgrid_set (k : string) (v : pyval) :
  k = "x" ∨ k = "y" ∨ k = "z" → preserves populate_frame (cgrid_set k v).
Proof.
  intros Hk s r s' [= _ <-]. constructor; cbn; try done.
  intros k' ? ? ?. apply lookup_insert_ne. intros ->. destruct Hk as [?|[?|?]]; done.
Qed.

Ltac populate_frame_step :=
  first
    [ apply preserves_bind; [exact populate_frame_trans | | intros ?]
    | apply preserves_ret; exact populate_frame_refl
    | apply preserves_raise; exact populate_frame_refl
    | apply preserves_lift; exact populate_frame_refl
    | apply preserves_attr_opt; exact populate_frame_refl
    | apply preserves_igrid_get; exact populate_frame_refl
    | apply preserves_cgrid_get; exact populate_frame_refl
    | apply preserves_as_arr; exact populate_frame_refl
    | apply preserves_as_nan; exact populate_frame_refl
    | apply populate_frame_cgrid_set;
      solve [repeat first [reflexivity | left; reflexivity | right]]
    | match goal with |- preserves _ (let '(_, _) := ?p in _) => destruct p end ].

Section calls.
Context (fft2 : ndarray (option R) → ndarray C)
        (ifft2 : ndarray C → ndarray C)
        (jn : nat → C → C)
        (csqrt : C → C)
        (griddata_cubic : list (R * R) → list R → list (R * R) → list (option R)).

Lemma populate_keeps (alpha : R) :
  preserves populate_frame (populate_computational_grid griddata_cubic alpha).
Proof. unfold populate_computational_grid. repeat populate_frame_step. Qed.

Lemma call_stops_in_populate (u0 udir : R) (s : WindShear) :
  __call__ fft2 ifft2 jn csqrt griddata_cubic u0 udir s
  = populate_computational_grid griddata_cubic udir s.
Proof.
  unfold __call__.
  destruct (populate_raises griddata_cubic udir s) as (e & s' & H).
  unfold mbind at 1, M_bind at 1. rewrite H. reflexivity.
Qed.

(** Property X25.
    An invocation never returns normally: it ends with the exception
    raised in [populate_computational_grid], with [igrid] and the
    perturbation fields of [cgrid] as they were. *)
Theorem call_never_returns (u0 udir : R) (s : WindShear) :
  ∃ e s', __call__ fft2 ifft2 jn csqrt griddata_cubic u0 udir s = (Raise e, s')
    ∧ igrid s' = igrid s
    ∧ cgrid s' !! "dtaux" = cgrid s !! "dtaux"
    ∧ cgrid s' !! "dtauy" = cgrid s !! "dtauy".
Proof.
  rewrite call_stops_in_populate.
  destruct (populate_raises griddata_cubic udir s) as (e & s' & H).
  exists e, s'. split; [done|].
  destruct (populate_keeps udir s _ _ H) as [Hi Hc _ _].
  split; [done|]. split; apply Hc; done.
Qed.

Lemma after_calls_igrid (calls : list (R * R)) (s : WindShear) :
  igrid (after_calls fft2 ifft2 jn csqrt griddata_cubic calls s) = igrid s.
Proof.
  unfold after_calls. revert s. induction calls as [|c calls IH]; intros s; [done|].
  cbn [foldl]. rewrite IH, call_stops_in_populate.
  destruct (populate_computational_grid griddata_cubic c.2 s) as [r s'] eqn:E.
  by destruct (populate_keeps c.2 s _ _ E).
Qed.

(** Property X26.
    On a constructed instance [get_shear] raises [KeyError] for
    [dtaux] after any sequence of invocations. *)
Theorem get_shear_after_calls (fl : rounding) (x y z : ndarray R) (dx dy bw : R) (br : option R)
    (L z0 l : R) (s0 : WindShear) (calls : list (R * R)) :
  __init__ fl x y z dx dy bw br L z0 l = Ok s0 →
  let s := after_calls fft2 ifft2 jn csqrt griddata_cubic calls s0 in
  get_shear s = (Raise (KeyError "dtaux"), s).
Proof.
  intros Hinit s.
  assert (igrid s !! "dtaux" = None) as Hx.
  { unfold s. rewrite after_calls_igrid.
    revert Hinit. unfold __init__.
    destruct (set_computational_grid _ _) as [[[]|e] s'] eqn:E; [|done].
    intros [= <-]. apply init_igrid in E. rewrite E. cbn. by simplify_map_eq. }
  unfold get_shear. by rewrite bind_igrid_get_missing.
Qed.
End calls.

(** ** Population and reference grid of a constructed instance *)

Lemma get_exact_grid_wf (fl : rounding) (kind : scalar) (xmin xmax ymin ymax dx dy : R)
    (gx gy : ndarray R) :
  get_exact_grid fl kind xmin xmax ymin ymax dx dy = Ok (gx, gy) →
  wf gx ∧ wf gy ∧ shape gx = shape gy.
Proof.
  unfold get_exact_grid.
  destruct (grid_axis fl kind xmin xmax dx) as [xs|]; [|done].
  destruct (grid_axis fl kind ymin ymax dy) as [ys|]; [|done].
  cbn [mbind result_bind]. intros H%Ok_inj.
  pose proof (meshgrid_wf xs ys) as (H1 & H2 & H3 & H4).
  rewrite H in *. cbn [fst snd] in *. by rewrite H3, H4.
Qed.

Section populate_run.
Context (griddata_cubic : list (R * R) → list R → list (R * R) → list (option R)).

Lemma populate_run (alpha : R) (s : WindShear) xi yi ox oy xc yc gx gy gz zc :
  cgrid s !! "xi" = Some (VArr xi) → cgrid s !! "yi" = Some (VArr yi) →
  x0 s = Some ox → y0 s = Some oy →
  rotate xi yi alpha (ox, oy) = Ok (xc, yc) →
  igrid s !! "x" = Some (VArr gx) → igrid s !! "y" = Some (VArr gy) →
  igrid s !! "z" = Some (VArr gz) →
  interpolate griddata_cubic gx gy gz xc yc = Ok zc →
  (∀ a, a = gx ∨ a = gy ∨ a = gz → 0 < (shape a).1 ∧ 0 < (shape a).2) →
  populate_computational_grid griddata_cubic alpha s
  = (Raise (NameError "x"),
     Self (igrid s)
          (<["y" := VArr yc]> (<["x" := VArr xc]> (<["z" := VNan zc]> (cgrid s))))
          (buffer_width s) (buffer_relaxation s) (L s) (z0 s) (l s)
          (D s) (x0 s) (y0 s)).
Proof.
  intros Hxi Hyi Hox Hoy Hrot Hgx Hgy Hgz Hint Hpos.
  assert (∀ a, a = gx ∨ a = gy ∨ a = gz → ∃ b, get_borders a = Ok b) as Hb.
  { intros a Ha. destruct (Hpos a Ha) as [H1 H2].
    destruct (shape a) as [ny nx] eqn:Hsh. cbn [fst snd] in *.
    rewrite (get_borders_pieces a ny nx) by done. by eexists. }
  destruct (Hb gx) as [px Hpx]; [by left|].
  destruct (Hb gy) as [py Hpy]; [by right; left|].
  destruct (Hb gz) as [pz Hpz]; [by right; right|].
  unfold populate_computational_grid.
  rewrite bind_assoc, (bind_cgrid_get "xi" (VArr xi)) by done. cbn [as_arr]. rewrite bind_ret.
  rewrite bind_assoc, (bind_cgrid_get "yi" (VArr yi)) by done. cbn [as_arr]. rewrite bind_ret.
  rewrite (bind_attr_opt "x0" x0 ox), (bind_attr_opt "y0" y0 oy) by done.
  rewrite (bind_lift_ok _ (xc, yc)) by done.
  rewrite bind_assoc, (bind_igrid_get "x" (VArr gx)) by done. cbn [as_arr]. rewrite bind_ret.
  rewrite bind_assoc, (bind_igrid_get "y" (VArr gy)) by done. cbn [as_arr]. rewrite bind_ret.
  rewrite bind_assoc, (bind_igrid_get "z" (VArr gz)) by done. cbn [as_arr]. rewrite bind_ret.
  rewrite (bind_lift_ok _ zc) by done.
  rewrite !bind_cgrid_set.
  rewrite bind_assoc, (bind_igrid_get "x" (VArr gx)) by done. cbn [as_arr]. rewrite bind_ret.
  rewrite (bind_lift_ok _ px) by done.
  rewrite bind_assoc, (bind_igrid_get "y" (VArr gy)) by done. cbn [as_arr]. rewrite bind_ret.
  rewrite (bind_lift_ok _ py) by done.
  rewrite bind_assoc, (bind_igrid_get "z" (VArr gz)) by done. cbn [as_arr]. rewrite bind_ret.
  rewrite (bind_lift_ok _ pz) by done.
  rewrite bind_assoc, (bind_cgrid_get "z" (VNan zc)) by (cbn; by simplify_map_eq).
  cbn [as_nan]. rewrite bind_ret. reflexivity.
Qed.

Lemma populate_constructed (fl : rounding) (x y z : ndarray R) (dx dy bw : R) (br : option R)
    (L z0 l : R) (s : WindShear) (alpha : R) :
  (∀ pts vals q, length (griddata_cubic pts vals q) = length q) →
  __init__ fl x y z dx dy bw br L z0 l = Ok s →
  wf x → shape y = shape x → shape z = shape x → wf y → wf z →
  0 < (shape x).1 → 0 < (shape x).2 →
  ∃ xi yi xc yc zc s',
    cgrid s !! "xi" = Some (VArr xi) ∧ cgrid s !! "yi" = Some (VArr yi)
    ∧ populate_computational_grid griddata_cubic alpha s = (Raise (NameError "x"), s')
    ∧ cgrid s' !! "x" = Some (VArr xc) ∧ cgrid s' !! "y" = Some (VArr yc)
    ∧ cgrid s' !! "z" = Some (VNan zc)
    ∧ shape xc = shape xi ∧ shape yc = shape xi ∧ shape zc = shape xi
    ∧ igrid s' = igrid s.
Proof.
  intros Hgd Hinit Hwx Hsy Hsz Hwy Hwz Hr Hc.
  assert (length (data x) = length (data y)) as Hxy by (unfold wf in *; congruence).
  assert (length (data x) = length (data z)) as Hxz by (unfold wf in *; congruence).
  assert (data x ≠ [] ∧ data y ≠ [] ∧ dx ≠ 0%R ∧ dy ≠ 0%R) as (Hx & Hy & Hdx & Hdy).
  { destruct (data x) as [|? ?] eqn:Ex;
      [rewrite init_failure in Hinit by (left; done); done|].
    destruct (data y) as [|? ?] eqn:Ey;
      [rewrite init_failure in Hinit by (right; left; done); done|].
    destruct (decide (dx = 0%R));
      [rewrite init_failure in Hinit by (right; right; left; done); done|].
    destruct (decide (dy = 0%R));
      [rewrite init_failure in Hinit by (right; right; right; done); done|].
    done. }
  destruct (init_state fl x y z dx dy bw br L z0 l Hx Hy Hdx Hdy)
    as (xlo & xhi & ylo & yhi & gx & gy & _ & _ & _ & _ & Hgrid & Hs).
  rewrite Hs in Hinit. apply Ok_inj in Hinit. subst s.
  apply get_exact_grid_wf in Hgrid as (Hwgx & Hwgy & Hsg).
  assert (length (data gx) = length (data gy)) as Hlen
    by (unfold wf in *; congruence).
  pose proof (rotate_ok gx gy alpha (mean x, mean y) Hlen Hwgx Hwgy) as Hrot.
  set (xc := Array (shape gx) _) in Hrot. set (yc := Array (shape gy) _) in Hrot.
  assert (wf xc ∧ length (data xc) = length (data yc)) as [Hwxc Hlc].
  { unfold wf, xc, yc in *. cbn [data shape].
    rewrite !length_fmap, length_zip. split; lia. }
  assert (∃ zc, interpolate griddata_cubic x y z xc yc = Ok zc ∧ shape zc = shape xc)
    as (zc & Hint & Hszc).
  { unfold interpolate, hconcat, reshape.
    rewrite !decide_True by done. cbn [mbind result_bind].
    rewrite !decide_True.
    - by eexists.
    - rewrite Hgd, length_zip. unfold wf in Hwxc. lia.
    - rewrite length_zip. lia. }
  exists gx, gy, xc, yc, zc. eexists.
  split; [cbn; by simplify_map_eq|]. split; [cbn; by simplify_map_eq|].
  split.
  { apply (populate_run alpha _ gx gy (mean x) (mean y) xc yc x y z zc);
      try (cbn; by simplify_map_eq); try done.
    intros a [->|[->| ->]]; rewrite ?Hsy, ?Hsz; done. }
  cbn. split; [by simplify_map_eq|]. split; [by simplify_map_eq|].
  split; [by simplify_map_eq|].
  split; [done|]. split; [by rewrite Hsg|]. split; [by rewrite Hszc|]. done.
Qed.

(** Property X27.
    On a constructed instance whose [x], [y] and [z] have one shape
    with at least one cell, and with a kernel that returns one value
    per query point, [populate_computational_grid] stores the rotated
    coordinates and the interpolated elevation, all of the shape of the
    reference grid, leaves [igrid] alone and then raises [NameError]
    for [x]. *)
Theorem populate_on_constructed (fl : rounding) (x y z : ndarray R) (dx dy bw : R)
    (br : option R) (L z0 l : R) (s : WindShear) (alpha : R) :
  (∀ pts vals q, length (griddata_cubic pts vals q) = length q) →
  __init__ fl x y z dx dy bw br L z0 l = Ok s →
  wf x → shape y = shape x → shape z = shape x → wf y → wf z →
  0 < (shape x).1 → 0 < (shape x).2 →
  ∃ xi yi xc yc zc s',
    cgrid s !! "xi" = Some (VArr xi) ∧ cgrid s !! "yi" = Some (VArr yi)
    ∧ populate_computational_grid griddata_cubic alpha s = (Raise (NameError "x"), s')
    ∧ cgrid s' !! "x" = Some (VArr xc) ∧ cgrid s' !! "y" = Some (VArr yc)
    ∧ cgrid s' !! "z" = Some (VNan zc)
    ∧ shape xc = shape xi ∧ shape yc = shape xi ∧ shape zc = shape xi
    ∧ igrid s' = igrid s.
Proof. apply populate_constructed. Qed.
End populate_run.

(** ** An invocation and its repetition a full turn later *)

Section full_turn.
Context (fft2 : ndarray (option R) → ndarray C)
        (ifft2 : ndarray C → ndarray C)
        (jn : nat → C → C)
        (csqrt : C → C)
        (griddata_cubic : list (R * R) → list R → list (R * R) → list (option R)).

(** Claim C7, evaluated on the code.  On a constructed instance the
    invocations with directions [udir] and [udir + 360] both end with
    an exception, the same one; neither changes [igrid], and after
    either [get_shear] raises [KeyError] for [dtaux]: there is no
    perturbation output on the input grid to compare.  For input
    arrays of one shape with at least one cell and a kernel that
    returns one value per query point, the exception is the
    [NameError] for [x] of line 160. *)
Theorem call_direction_no_output (fl : rounding) (x y z : ndarray R) (dx dy bw : R)
    (br : option R) (L z0 l : R) (s : WindShear) (u0 udir : R) :
  __init__ fl x y z dx dy bw br L z0 l = Ok s →
  ∃ e s1 s2,
    __call__ fft2 ifft2 jn csqrt griddata_cubic u0 udir s = (Raise e, s1)
    ∧ __call__ fft2 ifft2 jn csqrt griddata_cubic u0 (udir + 360) s = (Raise e, s2)
    ∧ igrid s1 = igrid s ∧ igrid s2 = igrid s
    ∧ get_shear s1 = (Raise (KeyError "dtaux"), s1)
    ∧ get_shear s2 = (Raise (KeyError "dtaux"), s2)
    ∧ ((∀ pts vals q, length (griddata_cubic pts vals q) = length q) →
       wf x → shape y = shape x → shape z = shape x → wf y → wf z →
       0 < (shape x).1 → 0 < (shape x).2 →
       e = NameError "x").
Proof.
  intros Hinit.
  destruct (populate_raises griddata_cubic udir s) as (e & s' & Hrun).
  assert (__call__ fft2 ifft2 jn csqrt griddata_cubic u0 udir s = (Raise e, s')) as Hcall
    by (by rewrite call_stops_in_populate).
  assert (igrid s' = igrid s) as Hi
    by (by destruct (populate_keeps griddata_cubic udir s _ _ Hrun)).
  assert (get_shear s' = (Raise (KeyError "dtaux"), s')) as Hget.
  { assert (igrid s' !! "dtaux" = None) as Hx.
    { rewrite Hi. revert Hinit. unfold __init__.
      destruct (set_computational_grid _ _) as [[[]|e'] s1] eqn:E; [|done].
      intros [= <-]. apply init_igrid in E. rewrite E. cbn. by simplify_map_eq. }
    unfold get_shear. by rewrite bind_igrid_get_missing. }
  exists e, s', s'. split; [done|]. split; [by rewrite call_period|].
  do 4 (split; [done|]).
  intros Hgd Hwx Hsy Hsz Hwy Hwz Hr Hc.
  destruct (populate_constructed griddata_cubic fl x y z dx dy bw br L z0 l s udir)
    as (? & ? & ? & ? & ? & s1 & _ & _ & Hrun' & _); try done.
  rewrite Hrun in Hrun'. by injection Hrun' as -> _.
Qed.
End full_turn.

(** Property X24.
    On a constructed instance the reference grid [xi], [yi] is a pair
    of well-formed arrays of one shape, so rotating it about the pivot
    succeeds for every angle and keeps that shape. *)
Theorem init_reference_grid (fl : rounding) (x y z : ndarray R) (dx dy bw : R) (br : option R)
    (L z0 l : R) (s : WindShear) :
  __init__ fl x y z dx dy bw br L z0 l = Ok s →
  ∃ xi yi,
    cgrid s !! "xi" = Some (VArr xi) ∧ cgrid s !! "yi" = Some (VArr yi)
    ∧ wf xi ∧ wf yi ∧ shape xi = shape yi
    ∧ (∀ alpha, ∃ xc yc, rotate xi yi alpha (mean x, mean y) = Ok (xc, yc)
                         ∧ shape xc = shape xi ∧ shape yc = shape xi).
Proof.
  intros Hinit.
  assert (data x ≠ [] ∧ data y ≠ [] ∧ dx ≠ 0%R ∧ dy ≠ 0%R) as (Hx & Hy & Hdx & Hdy).
  { destruct (data x) as [|? ?] eqn:Ex;
      [rewrite init_failure in Hinit by (left; done); done|].
    destruct (data y) as [|? ?] eqn:Ey;
      [rewrite init_failure in Hinit by (right; left; done); done|].
    destruct (decide (dx = 0%R));
      [rewrite init_failure in Hinit by (right; right; left; done); done|].
    destruct (decide (dy = 0%R));
      [rewrite init_failure in Hinit by (right; right; right; done); done|].
    done. }
  destruct (init_state fl x y z dx dy bw br L z0 l Hx Hy Hdx Hdy)
    as (xlo & xhi & ylo & yhi & gx & gy & _ & _ & _ & _ & Hgrid & Hs).
  rewrite Hs in Hinit. apply Ok_inj in Hinit. subst s.
  pose proof (get_exact_grid_wf _ _ _ _ _ _ _ _ _ _ Hgrid) as (Hwgx & Hwgy & Hsg).
  assert (length (data gx) = length (data gy)) as Hlen
    by (unfold wf in *; congruence).
  exists gx, gy.
  split; [cbn; by simplify_map_eq|]. split; [cbn; by simplify_map_eq|].
  split; [done|]. split; [done|]. split; [done|].
  intros alpha. rewrite rotate_ok by done. eexists _, _. split; [done|].
  cbn [shape]. by rewrite Hsg.
Qed.

Section compute_before_populate.
Context (fft2 : ndarray (option R) → ndarray C)
        (ifft2 : ndarray C → ndarray C)
        (jn : nat → C → C)
        (csqrt : C → C).

(** Property X21.
    The constructor stores no elevation on the computational grid: on a
    constructed instance [compute_shear] raises [KeyError] for [z],
    for every wind speed, and leaves the instance as it is. *)
Theorem compute_shear_before_populate (fl : rounding) (x y z : ndarray R) (dx dy bw : R)
    (br : option R) (L z0 l : R) (s : WindShear) (u0 : R) :
  __init__ fl x y z dx dy bw br L z0 l = Ok s →
  compute_shear fft2 ifft2 jn csqrt u0 s = (Raise (KeyError "z"), s).
Proof.
  intros Hinit.
  assert (data x ≠ [] ∧ data y ≠ [] ∧ dx ≠ 0%R ∧ dy ≠ 0%R) as (Hx & Hy & Hdx & Hdy).
  { destruct (data x) as [|? ?] eqn:Ex;
      [rewrite init_failure in Hinit by (left; done); done|].
    destruct (data y) as [|? ?] eqn:Ey;
      [rewrite init_failure in Hinit by (right; left; done); done|].
    destruct (decide (dx = 0%R));
      [rewrite init_failure in Hinit by (right; right; left; done); done|].
    destruct (decide (dy = 0%R));
      [rewrite init_failure in Hinit by (right; right; right; done); done|].
    done. }
  destruct (init_state fl x y z dx dy bw br L z0 l Hx Hy Hdx Hdy)
    as (xlo & xhi & ylo & yhi & gx & gy & _ & _ & _ & _ & _ & Hs).
  rewrite Hs in Hinit. apply Ok_inj in Hinit. subst s.
  unfold compute_shear.
  destruct (decide (u0 = 0%R));
    rewrite bind_assoc, bind_cgrid_get_missing by (cbn; by simplify_map_eq);
    reflexivity.
Qed.
End compute_before_populate.

(** ** The statements at sample inputs *)

Lemma rotate_compose_witness :
  ∃ xr yr, rotate two_points_x two_points_y 30 (0, 0)%R = Ok (xr, yr)
    ∧ rotate xr yr 60 (0, 0)%R = rotate two_points_x two_points_y (30 + 60) (0, 0)%R.
Proof.
  eexists _, _. split; [exact (rotate_ok two_points_x two_points_y 30 (0, 0)%R
                                 eq_refl eq_refl eq_refl)|].
  exact (rotate_compose two_points_x two_points_y _ _ 30 60 (0, 0)%R
           eq_refl eq_refl eq_refl
           (rotate_ok two_points_x two_points_y 30 (0, 0)%R eq_refl eq_refl eq_refl)).
Defined.

Lemma rotate_then_back_witness :
  ∃ xr yr, rotate two_points_x two_points_y 30 (0, 0)%R = Ok (xr, yr)
    ∧ rotate xr yr (-30) (0, 0)%R = Ok (two_points_x, two_points_y).
Proof.
  eexists _, _. split; [exact (rotate_ok two_points_x two_points_y 30 (0, 0)%R
                                 eq_refl eq_refl eq_refl)|].
  exact (rotate_then_back two_points_x two_points_y _ _ 30 (0, 0)%R
           eq_refl eq_refl eq_refl
           (rotate_ok two_points_x two_points_y 30 (0, 0)%R eq_refl eq_refl eq_refl)).
Defined.

Lemma rotate_keeps_distance_witness :
  ∃ qx qy, ((qx - 0) ^ 2 + (qy - 0) ^ 2 = (2 - 0) ^ 2 + (0 - 0) ^ 2)%R.
Proof.
  eexists _, _.
  exact (rotate_keeps_distance two_points_x two_points_y _ _ 30 (0, 0)%R 1 2 0 _ _
           eq_refl eq_refl eq_refl
           (rotate_ok two_points_x two_points_y 30 (0, 0)%R eq_refl eq_refl eq_refl)
           eq_refl eq_refl eq_refl eq_refl).
Defined.

Lemma rotate_needs_equal_sizes_witness :
  rotate two_points_x (Array (1, 1) [0%R]) 30 (0, 0)%R = Raise ValueError.
Proof.
  apply (proj2 (rotate_needs_equal_sizes two_points_x (Array (1, 1) [0%R]) 30 (0, 0)%R
                  eq_refl eq_refl)).
  cbn. lia.
Defined.

Lemma get_borders_needs_cells_witness :
  get_borders (Array (0, 3) ([] : list nat)) = Raise IndexError.
Proof.
  apply (proj2 (get_borders_needs_cells (Array (0, 3) ([] : list nat)))).
  left. reflexivity.
Defined.

Lemma get_borders_length_witness :
  get_borders three_by_three = Ok [1; 2; 3; 6; 9; 8; 7; 7; 1]
  ∧ length [1; 2; 3; 6; 9; 8; 7; 7; 1] = 2 * 3 + 2 * (3 - 2) + 1.
Proof.
  split; [reflexivity|].
  apply (get_borders_length three_by_three 3 3 [1; 2; 3; 6; 9; 8; 7; 7; 1]); reflexivity.
Defined.

Lemma get_borders_outer_ring_witness :
  ∃ j i, at2 three_by_three j i = Some 6 ∧ j < 3 ∧ i < 3
         ∧ (j = 0 ∨ j = 3 - 1 ∨ i = 0 ∨ i = 3 - 1).
Proof.
  apply (get_borders_outer_ring three_by_three 3 3 [1; 2; 3; 6; 9; 8; 7; 7; 1] 6);
    [reflexivity | reflexivity |].
  repeat constructor.
Defined.

Lemma get_sigmoid_range_witness : (0 < get_sigmoid default_buffer 0 < 1)%R.
Proof. apply get_sigmoid_range. cbn. lra. Defined.

Lemma get_sigmoid_symmetry_witness :
  (get_sigmoid default_buffer (buffer_width default_buffer + 25)
   + get_sigmoid default_buffer (buffer_width default_buffer - 25) = 1)%R.
Proof. apply get_sigmoid_symmetry. cbn. lra. Defined.

Lemma get_exact_grid_zero_spacing_witness :
  get_exact_grid exact_rounding PyFloat 0 1 0 1 0 1 = Raise ZeroDivisionError.
Proof. apply (get_exact_grid_zero_spacing exact_rounding PyFloat). left. reflexivity. Defined.

Lemma interpolate_result_shape_witness :
  ∃ r, interpolate griddata_outside unit_square_x unit_square_y unit_square_z
         two_points_x two_points_y = Ok r
    ∧ shape r = shape two_points_x.
Proof.
  eexists. split; [reflexivity|].
  apply (interpolate_result_shape griddata_outside unit_square_x unit_square_y
           unit_square_z two_points_x two_points_y). reflexivity.
Defined.

Lemma interpolate_size_mismatch_witness :
  interpolate griddata_outside unit_square_x two_points_y unit_square_z
    two_points_x two_points_y = Raise ValueError.
Proof. apply interpolate_size_mismatch. left. cbn. lia. Defined.

Lemma interpolate_succeeds_witness :
  ∃ r, interpolate griddata_outside unit_square_x unit_square_y unit_square_z
         two_points_x two_points_y = Ok r
    ∧ shape r = shape two_points_x ∧ wf r.
Proof.
  apply interpolate_succeeds; try reflexivity.
  intros pts vals q. unfold griddata_outside. apply length_fmap.
Defined.

Lemma compute_shear_overwrites_witness :
  ∃ s1, compute_shear fft2_stub ifft2_stub jn_stub csqrt_stub 0 one_cell = (Ok (), s1)
    ∧ compute_shear fft2_stub ifft2_stub jn_stub csqrt_stub 0 s1 = (Ok (), s1).
Proof.
  eexists. split.
  - apply (compute_shear_run fft2_stub ifft2_stub jn_stub csqrt_stub 0 one_cell
             (Array (1, 1) [None]) 1 1); [reflexivity|]. intros H. by destruct H.
  - apply (compute_shear_overwrites fft2_stub ifft2_stub jn_stub csqrt_stub 0 one_cell
             _ (zeros (1, 1)) (zeros (1, 1))).
    apply (compute_shear_run fft2_stub ifft2_stub jn_stub csqrt_stub 0 one_cell
             (Array (1, 1) [None]) 1 1); [reflexivity|]. intros H. by destruct H.
Defined.

Lemma compute_shear_effect_witness :
  igrid (compute_shear fft2_stub ifft2_stub jn_stub csqrt_stub 0 one_cell).2
  = igrid one_cell.
Proof.
  destruct (compute_shear fft2_stub ifft2_stub jn_stub csqrt_stub 0 one_cell)
    as [r s'] eqn:E.
  exact (proj1 (compute_shear_effect fft2_stub ifft2_stub jn_stub csqrt_stub
                  0 one_cell s' r E)).
Defined.

Lemma wavenumbers_closed_form_witness : length (wavenumbers 4 1) = 4.
Proof. apply (wavenumbers_closed_form 4 1); [lra | lia]. Defined.

Lemma wavenumbers_NoDup_witness : NoDup (wavenumbers 4 1).
Proof. apply wavenumbers_NoDup; [lra | lia]. Defined.

Lemma init_succeeds_iff_witness :
  ∃ s, __init__ exact_rounding unit_square_x unit_square_y unit_square_z
         1 1 100 None 100 (1 / 1000) 10
       = Ok s.
Proof.
  apply (proj1 (init_succeeds_iff exact_rounding unit_square_x unit_square_y unit_square_z
                  1 1 100 None 100 (1 / 1000) 10)).
  repeat split; [discriminate | discriminate | lra | lra].
Defined.

Lemma init_geometry_witness :
  ∃ s, __init__ exact_rounding unit_square_x unit_square_y unit_square_z
         1 1 100 None 100 (1 / 1000) 10
       = Ok s
     ∧ x0 s = Some (mean unit_square_x).
Proof.
  destruct (init_succeeds exact_rounding unit_square_x unit_square_y unit_square_z
              1 1 100 None 100 (1 / 1000) 10) as [s Hs];
    [discriminate | discriminate | lra | lra |].
  exists s. split; [exact Hs|].
  destruct (init_geometry _ _ _ _ _ _ _ _ _ _ _ s Hs)
    as (? & ? & ? & ? & ? & _ & _ & _ & _ & H & _). exact H.
Defined.

Lemma init_reference_grid_witness :
  ∃ s xi yi, __init__ exact_rounding unit_square_x unit_square_y unit_square_z
               1 1 100 None 100 (1 / 1000) 10 = Ok s
     ∧ cgrid s !! "xi" = Some (VArr xi) ∧ cgrid s !! "yi" = Some (VArr yi)
     ∧ shape xi = shape yi.
Proof.
  destruct (init_succeeds exact_rounding unit_square_x unit_square_y unit_square_z
              1 1 100 None 100 (1 / 1000) 10) as [s Hs];
    [discriminate | discriminate | lra | lra |].
  destruct (init_reference_grid _ _ _ _ _ _ _ _ _ _ _ s Hs)
    as (xi & yi & H1 & H2 & _ & _ & H3 & _).
  exists s, xi, yi. repeat split; assumption.
Defined.

Lemma get_shear_after_calls_witness :
  ∃ s0, __init__ exact_rounding unit_square_x unit_square_y unit_square_z
          1 1 100 None 100 (1 / 1000) 10 = Ok s0
     ∧ (get_shear (after_calls fft2_stub ifft2_stub jn_stub csqrt_stub griddata_outside
                     [(10, 0); (10, 90)]%R s0)).1
       = Raise (KeyError "dtaux").
Proof.
  destruct (init_succeeds exact_rounding unit_square_x unit_square_y unit_square_z
              1 1 100 None 100 (1 / 1000) 10) as [s Hs];
    [discriminate | discriminate | lra | lra |].
  exists s. split; [exact Hs|].
  rewrite (get_shear_after_calls fft2_stub ifft2_stub jn_stub csqrt_stub griddata_outside
             _ _ _ _ _ _ _ _ _ _ _ s [(10, 0); (10, 90)]%R Hs).
  reflexivity.
Defined.

Lemma populate_on_constructed_witness :
  ∃ s s', __init__ exact_rounding unit_square_x unit_square_y unit_square_z
            1 1 100 None 100 (1 / 1000) 10 = Ok s
     ∧ populate_computational_grid griddata_outside 0 s = (Raise (NameError "x"), s').
Proof.
  destruct (init_succeeds exact_rounding unit_square_x unit_square_y unit_square_z
              1 1 100 None 100 (1 / 1000) 10) as [s Hs];
    [discriminate | discriminate | lra | lra |].
  destruct (populate_on_constructed griddata_outside exact_rounding
              unit_square_x unit_square_y unit_square_z 1 1 100 None 100 (1 / 1000) 10
              s 0)
    as (xi & yi & xc & yc & zc & s' & _ & _ & H & _);
    [ intros pts vals q; unfold griddata_outside; apply length_fmap
    | exact Hs | reflexivity | reflexivity | reflexivity | reflexivity | reflexivity
    | cbn; lia | cbn; lia | ].
  exists s, s'. split; assumption.
Defined.

Lemma compute_shear_before_populate_witness :
  ∃ s, __init__ exact_rounding unit_square_x unit_square_y unit_square_z
         1 1 100 None 100 (1 / 1000) 10
       = Ok s
     ∧ compute_shear fft2_stub ifft2_stub jn_stub csqrt_stub 10 s
       = (Raise (KeyError "z"), s).
Proof.
  destruct (init_succeeds exact_rounding unit_square_x unit_square_y unit_square_z
              1 1 100 None 100 (1 / 1000) 10) as [s Hs];
    [discriminate | discriminate | lra | lra |].
  exists s. split; [exact Hs|].
  exact (compute_shear_before_populate fft2_stub ifft2_stub jn_stub csqrt_stub
           _ _ _ _ _ _ _ _ _ _ _ s 10 Hs).
Defined.

Lemma call_direction_no_output_witness :
  ∃ s s1 s2, __init__ exact_rounding unit_square_x unit_square_y unit_square_z
               1 1 100 None 100 (1 / 1000) 10 = Ok s
     ∧ __call__ fft2_stub ifft2_stub jn_stub csqrt_stub griddata_outside 10 10 s
       = (Raise (NameError "x"), s1)
     ∧ __call__ fft2_stub ifft2_stub jn_stub csqrt_stub griddata_outside 10 (10 + 360) s
       = (Raise (NameError "x"), s2)
     ∧ get_shear s1 = (Raise (KeyError "dtaux"), s1)
     ∧ get_shear s2 = (Raise (KeyError "dtaux"), s2).
Proof.
  destruct (init_succeeds exact_rounding unit_square_x unit_square_y unit_square_z
              1 1 100 None 100 (1 / 1000) 10) as [s Hs];
    [discriminate | discriminate | lra | lra |].
  destruct (call_direction_no_output fft2_stub ifft2_stub jn_stub csqrt_stub
              griddata_outside _ _ _ _ _ _ _ _ _ _ _ s 10 10 Hs)
    as (e & s1 & s2 & H1 & H2 & _ & _ & H3 & H4 & He).
  assert (e = NameError "x") as ->.
  { apply He;
      [ intros pts vals q; unfold griddata_outside; apply length_fmap
      | reflexivity | reflexivity | reflexivity | reflexivity | reflexivity
      | cbn; lia | cbn; lia ]. }
  exists s, s1, s2. repeat split; assumption.
Defined.
